(** * backend-server.js: catalog and visitor-counter backend

    A shallow embedding of [src/backend-server.js] and the properties of its
    request handlers.

    Modelling conventions.
    - JavaScript numbers are the integers among the doubles, held in [Z].
      [Math.max], [||] and [===] are exact on them; [+] rounds the sum to
      the nearest double, ties to even ([plus]), and so does [parseInt].
      [NaN] is kept apart ([number]).
    - A file is either absent, or holds bytes; bytes either are the JSON text
      of a value ([Encodes v], what [JSON.stringify v] writes and
      [JSON.parse] reads back) or are rejected by [JSON.parse] ([Garbled]).
    - [products.json], when it parses, holds an array of objects whose [id]
      is an integer or missing; [stats.json], when it parses, holds an
      object whose [visits] is an integer or missing.
    - [fs.writeFileSync] succeeds.
    - Handlers run in a state-and-exception monad over the two files and a
      log of the file-system calls made so far. *)

From stdpp Require Import base option strings list gmap sorting.
From Stdlib Require Import ZArith Ascii.

Local Open Scope Z_scope.
Set Warnings "-register-all".

(** ** JavaScript values *)

Module JS.

(** Values that reach the handlers: what [express.json] puts in
    [req.body], plus [undefined] for a property that is not there. *)
Inductive value : Type :=
| Undefined
| Null
| Bool (b : bool)
| Num (z : Z)
| Str (s : string)
| Arr (l : list value)
| Obj (o : gmap string value).

(** ToBoolean: what [!v] tests. *)
Definition truthy (v : value) : bool :=
  match v with
  | Undefined | Null => false
  | Bool b => b
  | Num z => negb (z =? 0)
  | Str s => negb (String.eqb s "")
  | Arr _ | Obj _ => true
  end.

(** Property read on a parsed object: [o.k], [undefined] when absent. *)
Definition prop (o : gmap string value) (k : string) : value :=
  default Undefined (o !! k).

(** Result of [parseInt]: an integer double or [NaN]. *)
Inductive number : Type :=
| NaN
| Int (z : Z).

(** [x === n] for [x] an optional integer property ([None]: undefined)
    and [n] a number; [NaN] and [undefined] equal nothing. *)
Definition strict_eq (x : option Z) (n : number) : bool :=
  match x, n with
  | Some a, Int b => a =? b
  | _, _ => false
  end.

(** [x || 0] for an optional integer property: [undefined] and [0] are
    falsy, so both give [0]. *)
Definition or_0 (x : option Z) : Z :=
  match x with
  | Some z => if z =? 0 then 0 else z
  | None => 0
  end.

(** What is stored for an [id: n] property: [JSON.stringify] writes a
    [NaN] as [null], which reads back as no integer. *)
Definition stored_number (n : number) : option Z :=
  match n with
  | Int z => Some z
  | NaN => None
  end.

(** *** Double arithmetic on integers *)

(** The double nearest to an integer, ties going to the even significand.
    Integers up to 2^53 in magnitude are doubles; above, a double keeps 53
    significant bits.  The exponent is not bounded here: [parseInt] deals
    with overflow, and adding 1 to a double never overflows. *)
Definition round_to_double (z : Z) : Z :=
  let a := Z.abs z in
  if a <=? 2 ^ 53 then z
  else
    let e := Z.log2 a - 52 in
    let q := a / 2 ^ e in
    let r := a mod 2 ^ e in
    let half := 2 ^ (e - 1) in
    let q' := if (half <? r) || ((r =? half) && Z.odd q) then q + 1 else q in
    Z.sgn z * (q' * 2 ^ e).

Definition is_double (z : Z) : bool := round_to_double z =? z.

(** [x + y] on numbers: the sum of two doubles, rounded.  An integer that
    is not a double is never an operand in the code, since [JSON.parse] and
    [parseInt] yield doubles; there the sum is left as it is. *)
Definition plus (x y : Z) : Z :=
  if is_double x && is_double y then round_to_double (x + y) else x + y.

(** *** [parseInt(s)] with no radix

    The string is given by its UTF-8 bytes. *)

(** The one-byte white space and line terminators: TAB, LF, VT, FF, CR,
    SP. *)
Definition isWhiteSpace (c : ascii) : bool :=
  let n := Z.of_nat (nat_of_ascii c) in
  (n =? 32) || ((9 <=? n) && (n <=? 13)).

(** U+00A0. *)
Definition isWhiteSpace2 (c1 c2 : ascii) : bool :=
  let n1 := Z.of_nat (nat_of_ascii c1) in
  let n2 := Z.of_nat (nat_of_ascii c2) in
  (n1 =? 194) && (n2 =? 160).

(** U+1680, U+2000 to U+200A, U+2028, U+2029, U+202F, U+205F, U+3000,
    U+FEFF. *)
Definition isWhiteSpace3 (c1 c2 c3 : ascii) : bool :=
  let n1 := Z.of_nat (nat_of_ascii c1) in
  let n2 := Z.of_nat (nat_of_ascii c2) in
  let n3 := Z.of_nat (nat_of_ascii c3) in
  ((n1 =? 225) && (n2 =? 154) && (n3 =? 128))
  || ((n1 =? 226) && (n2 =? 128)
      && (((128 <=? n3) && (n3 <=? 138)) || (n3 =? 168) || (n3 =? 169)
          || (n3 =? 175)))
  || ((n1 =? 226) && (n2 =? 129) && (n3 =? 159))
  || ((n1 =? 227) && (n2 =? 128) && (n3 =? 128))
  || ((n1 =? 239) && (n2 =? 187) && (n3 =? 191)).

Fixpoint trimStart (s : string) : string :=
  match s with
  | EmptyString => s
  | String c1 s1 =>
      if isWhiteSpace c1 then trimStart s1
      else
        match s1 with
        | EmptyString => s
        | String c2 s2 =>
            if isWhiteSpace2 c1 c2 then trimStart s2
            else
              match s2 with
              | EmptyString => s
              | String c3 s3 =>
                  if isWhiteSpace3 c1 c2 c3 then trimStart s3 else s
              end
        end
  end.

Definition digitValue (c : ascii) : option Z :=
  let n := Z.of_nat (nat_of_ascii c) in
  if (48 <=? n) && (n <=? 57) then Some (n - 48)
  else if (97 <=? n) && (n <=? 122) then Some (n - 87)
  else if (65 <=? n) && (n <=? 90) then Some (n - 55)
  else None.

(** Exact value of the longest prefix of [s] made of radix-[R] digits;
    [acc] is [None] until a digit has been read. *)
Fixpoint digits (R : Z) (s : string) (acc : option Z) : option Z :=
  match s with
  | String c s' =>
      match digitValue c with
      | Some d => if d <? R then digits R s' (Some (R * default 0 acc + d))
                  else acc
      | None => acc
      end
  | EmptyString => acc
  end.

Definition parseInt (s : string) : number :=
  let s := trimStart s in
  let '(sign, s) :=
    match s with
    | String "-" r => (-1, r)
    | String "+" r => (1, r)
    | _ => (1, s)
    end in
  let '(R, s) :=
    match s with
    | String "0" (String "x" r) | String "0" (String "X" r) => (16, r)
    | _ => (10, s)
    end in
  match digits R s None with
  | Some m =>
      (* the number value of the digits; beyond the doubles it is an
         infinity, which like NaN equals no stored id and is written as
         null *)
      let z := round_to_double (sign * m) in
      if Z.abs z <? 2 ^ 1024 then Int z else NaN
  | None => NaN
  end.

End JS.
Import JS.

(** ** Data model *)

(** A product record as it sits in the products array.  [other] holds the
    properties a stored object may carry besides the five the server
    writes. *)
Record product : Type := Product {
  id : option Z;
  name : value;
  description : value;
  image : value;
  alt : value;
  other : gmap string value
}.

(** The stats object; [stats_other] as for products. *)
Record stats : Type := Stats {
  visits : option Z;
  stats_other : gmap string value
}.

#[global] Instance product_inhabited : Inhabited product :=
  populate (Product None Undefined Undefined Undefined Undefined ∅).

(** ** File system *)

Module Fs.

Inductive data (A : Type) : Type :=
| Garbled
| Encodes (v : A).
Arguments Garbled {A}.
Arguments Encodes {A} v.

(** The two data files, indexed by what they hold. *)
Inductive file : Type → Type :=
| PRODUCTS_FILE : file (list product)
| STATS_FILE : file stats.

Inductive event : Type :=
| Read {A} (f : file A)
| Write {A} (f : file A).

Record world : Type := World {
  products_json : option (data (list product));
  stats_json : option (data stats);
  log : list event
}.

Definition slot {A} (f : file A) (w : world) : option (data A) :=
  match f in file T return option (data T) with
  | PRODUCTS_FILE => products_json w
  | STATS_FILE => stats_json w
  end.

Definition store {A} (f : file A) (d : data A) (w : world) : world :=
  match f in file T return data T → world with
  | PRODUCTS_FILE => λ d, World (Some d) (stats_json w) (log w)
  | STATS_FILE => λ d, World (products_json w) (Some d) (log w)
  end d.

Definition logged (e : event) (w : world) : world :=
  World (products_json w) (stats_json w) (log w ++ [e]).

Inductive exn : Type :=
| ENOENT
| SyntaxError.

Inductive outcome (A : Type) : Type :=
| Returns (a : A)
| Throws (e : exn).
Arguments Returns {A} a.
Arguments Throws {A} e.

(** Computations that read and write the world and may throw. *)
Definition IO (A : Type) : Type := world → outcome A * world.

#[global] Instance IO_ret : MRet IO := λ A a w, (Returns a, w).

#[global] Instance IO_bind : MBind IO := λ A B k m w,
  match m w with
  | (Returns a, w') => k a w'
  | (Throws e, w') => (Throws e, w')
  end.

Definition throw {A} (e : exn) : IO A := λ w, (Throws e, w).

(** [try { m } catch (e) { h e }] *)
Definition try_catch {A} (m : IO A) (h : exn → IO A) : IO A := λ w,
  match m w with
  | (Returns a, w') => (Returns a, w')
  | (Throws e, w') => h e w'
  end.

Definition readFileSync {A} (f : file A) : IO (data A) := λ w,
  match slot f w with
  | Some d => (Returns d, logged (Read f) w)
  | None => (Throws ENOENT, logged (Read f) w)
  end.

Definition writeFileSync {A} (f : file A) (d : data A) : IO unit := λ w,
  (Returns tt, logged (Write f) (store f d w)).

Definition JSON_parse {A} (d : data A) : IO A :=
  match d with
  | Encodes v => mret v
  | Garbled => throw SyntaxError
  end.

Definition JSON_stringify {A} (v : A) : data A := Encodes v.

End Fs.
Import Fs.

(** ** The server *)

(** Load or initialize products.json *)
Definition loadProducts : IO (list product) :=
  try_catch
    (data ← readFileSync PRODUCTS_FILE;
     JSON_parse data)
    (λ e, mret []).

(** Save products.json *)
Definition saveProducts (products : list product) : IO unit :=
  writeFileSync PRODUCTS_FILE (JSON_stringify products).

(** Load or initialize stats.json *)
Definition loadStats : IO stats :=
  try_catch
    (data ← readFileSync STATS_FILE;
     JSON_parse data)
    (λ e, mret (Stats (Some 0) ∅)).

(** Save stats.json *)
Definition saveStats (s : stats) : IO unit :=
  writeFileSync STATS_FILE (JSON_stringify s).

(** Simple product ID generator (auto increment):
    [products.reduce((max, p) => Math.max(max, p.id || 0), 0) + 1] *)
Definition generateProductId (products : list product) : Z :=
  let maxId := fold_left (λ max p, Z.max max (or_0 (id p))) products 0 in
  plus maxId 1.

(** [products.findIndex(pred)]; [None] stands for the [-1] of no match. *)
Fixpoint findIndex {A} (pred : A → bool) (l : list A) : option nat :=
  match l with
  | [] => None
  | x :: l' => if pred x then Some 0%nat else S <$> findIndex pred l'
  end.

(** Requests and responses *)

Record request : Type := Request {
  params_id : string;            (* req.params.id *)
  body : gmap string value       (* req.body *)
}.

Inductive json : Type :=
| error (msg : string)                 (* { error: msg } *)
| message (msg : string)               (* { message: msg } *)
| product_json (p : product)
| products_array (l : list product)
| visits_json (n : option Z)           (* { visits: n } *)
| stats_object (s : stats).

Record response : Type := Response {
  status : nat;
  sent : json
}.

(** [res.json(b)] answers with status 200; [res.status(c).json(b)] with [c]. *)
Definition res_json (b : json) : response := Response 200 b.
Definition res_status_json (c : nat) (b : json) : response := Response c b.

(** Get all products *)
Definition get_products (req : request) : IO response :=
  products ← loadProducts;
  mret (res_json (products_array products)).

(** Add new product *)
Definition post_products (req : request) : IO response :=
  let name := prop (body req) "name" in
  let description := prop (body req) "description" in
  let image := prop (body req) "image" in
  let alt := prop (body req) "alt" in
  if negb (truthy name) || negb (truthy description)
     || negb (truthy image) || negb (truthy alt)
  then mret (res_status_json 400 (error "Missing required fields"))
  else
    products ← loadProducts;
    let newProduct :=
      Product (Some (generateProductId products)) name description image alt ∅ in
    let products := products ++ [newProduct] in
    _ ← saveProducts products;
    mret (res_status_json 201 (product_json newProduct)).

(** Update product by id *)
Definition put_product (req : request) : IO response :=
  let productId := parseInt (params_id req) in
  let name := prop (body req) "name" in
  let description := prop (body req) "description" in
  let image := prop (body req) "image" in
  let alt := prop (body req) "alt" in
  if negb (truthy name) || negb (truthy description)
     || negb (truthy image) || negb (truthy alt)
  then mret (res_status_json 400 (error "Missing required fields"))
  else
    products ← loadProducts;
    match findIndex (λ p, strict_eq (id p) productId) products with
    | None => mret (res_status_json 404 (error "Product not found"))
    | Some productIndex =>
        let products :=
          <[productIndex :=
              Product (stored_number productId) name description image alt ∅]>
            products in
        _ ← saveProducts products;
        mret (res_json (product_json (products !!! productIndex)))
    end.

(** Delete product by id *)
Definition delete_product (req : request) : IO response :=
  let productId := parseInt (params_id req) in
  products ← loadProducts;
  match findIndex (λ p, strict_eq (id p) productId) products with
  | None => mret (res_status_json 404 (error "Product not found"))
  | Some productIndex =>
      let products := delete productIndex products in
      _ ← saveProducts products;
      mret (res_json (message "Product deleted"))
  end.

(** Visitor stats increment *)
Definition post_stats_visit (req : request) : IO response :=
  s ← loadStats;
  let s := Stats (Some (plus (or_0 (visits s)) 1)) (stats_other s) in
  _ ← saveStats s;
  mret (res_json (visits_json (visits s))).

(** Get visitor stats *)
Definition get_stats (req : request) : IO response :=
  s ← loadStats;
  mret (res_json (stats_object s)).

(** The routes registered on [app], and a client calling them in sequence. *)
Inductive route : Type :=
| GET_products          (* app.get('/api/products') *)
| POST_products         (* app.post('/api/products') *)
| PUT_product           (* app.put('/api/products/:id') *)
| DELETE_product        (* app.delete('/api/products/:id') *)
| POST_stats_visit      (* app.post('/api/stats/visit') *)
| GET_stats.            (* app.get('/api/stats') *)

Definition app (r : route) : request → IO response :=
  match r with
  | GET_products => get_products
  | POST_products => post_products
  | PUT_product => put_product
  | DELETE_product => delete_product
  | POST_stats_visit => post_stats_visit
  | GET_stats => get_stats
  end.

(** Requests served one after the other, none overlapping another. *)
Fixpoint serve (calls : list (route * request)) : IO (list response) :=
  match calls with
  | [] => mret []
  | (r, req) :: calls' =>
      res ← app r req;
      rest ← serve calls';
      mret (res :: rest)
  end.

(** ** Vocabulary of the specification *)

(** What a [load] of each dataset yields in a given world. *)
Definition stored_products (w : world) : list product :=
  match products_json w with
  | Some (Encodes l) => l
  | _ => []
  end.

Definition stored_stats (w : world) : stats :=
  match stats_json w with
  | Some (Encodes s) => s
  | _ => Stats (Some 0) ∅
  end.

(** A backing file that is absent or does not parse. *)
Definition unreadable {A} (o : option (data A)) : Prop :=
  o = None ∨ o = Some Garbled.

(** The required fields of Create and Update. *)
Definition required : list string := ["name"; "description"; "image"; "alt"].

Definition all_present (req : request) : Prop :=
  ∀ k, k ∈ required → truthy (prop (body req) k) = true.

Definition some_missing (req : request) : Prop :=
  ∃ k, k ∈ required ∧ truthy (prop (body req) k) = false.

(** The record Create and Update build from the request fields. *)
Definition record_of (i : option Z) (req : request) : product :=
  Product i (prop (body req) "name") (prop (body req) "description")
            (prop (body req) "image") (prop (body req) "alt") ∅.

(** The product [p] is the one a path id parsed to [n] names. *)
Definition matches (n : number) (p : product) : Prop :=
  ∃ z, n = Int z ∧ id p = Some z.

(** The allocator's claim speaks of the id observed on a record, a missing
    id counting as 0, and of the maximum of a sequence of integers. *)
Definition observed_id (p : product) : Z := default 0 (id p).

Definition is_maximum (m : Z) (l : list Z) : Prop :=
  m ∈ l ∧ ∀ x, x ∈ l → x ≤ m.

(** The value of the allocator's [maxId] on a collection. *)
Definition maxId (l : list product) : Z :=
  fold_left (λ max p, Z.max max (or_0 (id p))) l 0.

(** Ids are unique within a collection. *)
Definition unique_ids (l : list product) : Prop := NoDup (id <$> l).

(** ** Sample data *)

(** No file written yet. *)
Definition fresh : world := World None None [].

(** The request body of the specification's scenario. *)
Definition speaker_fields : gmap string value :=
  <["name" := Str "Speaker"]> (<["description" := Str "Loud"]>
  (<["image" := Str "<data>"]> (<["alt" := Str "speaker"]> ∅))).

Definition speaker : request := Request "2" speaker_fields.

(** The same body with an empty [alt]. *)
Definition unlabelled : request :=
  Request "2" (<["alt" := Str ""]> speaker_fields).

Definition mixer : product :=
  Product (Some 1) (Str "Mixer") (Str "8 channels") (Str "<data>") (Str "mixer") ∅.

Definition amplifier : product :=
  Product (Some 2) (Str "Amplifier") (Str "500 W") (Str "<data>") (Str "amp")
          (<["price" := Num 300]> ∅).

Definition cable : product :=
  Product (Some 4) (Str "Cable") (Str "5 m") (Str "<data>") (Str "cable") ∅.

(** A catalog with the ids 1, 2 and 4, and one visit counted. *)
Definition shop : world :=
  World (Some (Encodes [mixer; amplifier; cable]))
        (Some (Encodes (Stats (Some 1) ∅))) [].

(** A request for an id the catalog does not have. *)
Definition speaker_at_3 : request := Request "3" speaker_fields.
Definition unlabelled_at_3 : request :=
  Request "3" (<["alt" := Str ""]> speaker_fields).

(** A products file edited by hand so that its only id is negative. *)
Definition returned : product :=
  Product (Some (-5)) (Str "Returned") (Str "Refund") (Str "<data>") (Str "r") ∅.

Definition ledger : world := World (Some (Encodes [returned])) None [].

(** Files edited by hand to hold 2^53, the first double whose successor
    is not a double. *)
Definition huge : product :=
  Product (Some (2 ^ 53)) (Str "Huge") (Str "Last") (Str "<data>") (Str "h") ∅.

Definition vault : world := World (Some (Encodes [huge])) None [].


(** Both files present but not JSON. *)
Definition damaged : world := World (Some Garbled) (Some Garbled) [].

(** ** Vocabulary of the further properties *)

(** A record as the service itself writes it: an id of at least 1, as the
    allocator gives, and no property besides the five. *)
Definition service_record (p : product) : Prop :=
  (∃ z, id p = Some z ∧ 1 ≤ z) ∧ other p = ∅.

(** A collection of such records, their ids growing along the array. *)
Definition well_formed (l : list product) : Prop :=
  Forall service_record l ∧ StronglySorted Z.lt (observed_id <$> l).

(** The calls of a sequence that go to the visit route. *)
Definition is_visit (c : route * request) : bool :=
  match c.1 with
  | POST_stats_visit => true
  | _ => false
  end.

Definition visit_calls (calls : list (route * request)) : nat :=
  length (List.filter is_visit calls).

(** The routes that write the products file. *)
Definition product_writers : list route :=
  [POST_products; PUT_product; DELETE_product].

(** Further sample data *)

Definition at_5 : request := Request "5" ∅.

(** A catalog as the service leaves it: ids 1, 2 and 4, no other
    property. *)
Definition tidy : world :=
  World (Some (Encodes [mixer; record_of (Some 2) speaker; cable])) None [].

(** A hand-edited catalog in which two records share the id 2. *)
Definition doubled : world :=
  World (Some (Encodes [mixer; amplifier; cable; amplifier])) None [].

(** ** Running the primitives *)

Lemma or_0_default (x : option Z) : or_0 x = default 0 x.
Proof.
  destruct x as [z|]; simpl; [|done].
  destruct (Z.eqb_spec z 0); congruence.
Qed.

Lemma strict_eq_matches (n : number) (p : product) :
  strict_eq (id p) n = true ↔ matches n p.
Proof.
  unfold matches, strict_eq. split.
  - destruct (id p) as [a|], n as [|b]; try discriminate.
    intros ->%Z.eqb_eq. eauto.
  - intros (z & -> & ->). apply Z.eqb_refl.
Qed.

Lemma strict_eq_no_match (n : number) (p : product) :
  strict_eq (id p) n = false ↔ ¬ matches n p.
Proof.
  rewrite <- strict_eq_matches. destruct (strict_eq (id p) n); split; congruence.
Qed.

Lemma loadProducts_run (w : world) :
  loadProducts w = (Returns (stored_products w), logged (Read PRODUCTS_FILE) w).
Proof.
  unfold loadProducts, try_catch, mbind, IO_bind, readFileSync, stored_products.
  simpl. destruct (products_json w) as [[|l]|]; reflexivity.
Qed.

Lemma loadStats_run (w : world) :
  loadStats w = (Returns (stored_stats w), logged (Read STATS_FILE) w).
Proof.
  unfold loadStats, try_catch, mbind, IO_bind, readFileSync, stored_stats.
  simpl. destruct (stats_json w) as [[|s]|]; reflexivity.
Qed.

Lemma bind_run {A B} (m : IO A) (k : A → IO B) (w w' : world) (a : A) :
  m w = (Returns a, w') → (m ≫= k) w = k a w'.
Proof. intros H. unfold mbind, IO_bind. by rewrite H. Qed.

(** *** [findIndex] returns the first position where the test holds *)

Lemma findIndex_None {A} (f : A → bool) (l : list A) :
  findIndex f l = None ↔ ∀ x, x ∈ l → f x = false.
Proof.
  induction l as [|a l IH]; simpl.
  - split; [intros _ x Hx; inversion Hx | done].
  - destruct (f a) eqn:Ha.
    + split; [done|]. intros H. specialize (H a (list_elem_of_here _ _)). congruence.
    + rewrite fmap_None, IH. split.
      * intros H x [->|Hx]%elem_of_cons; auto.
      * intros H x Hx. apply H. by right.
Qed.

Lemma findIndex_Some {A} (f : A → bool) (l : list A) (i : nat) :
  findIndex f l = Some i ↔
  ∃ l1 x l2, l = l1 ++ x :: l2 ∧ length l1 = i ∧ f x = true
             ∧ ∀ y, y ∈ l1 → f y = false.
Proof.
  revert i. induction l as [|a l IH]; intros i; simpl.
  - split; [done|]. intros (l1 & x & l2 & H & _). by destruct l1.
  - destruct (f a) eqn:Ha.
    + split.
      * intros [= <-]. exists [], a, l. split_and!; try done.
        intros y Hy. inversion Hy.
      * intros (l1 & x & l2 & H & <- & Hx & Hl1).
        destruct l1 as [|b l1]; [done|]. simplify_eq/=.
        specialize (Hl1 b (list_elem_of_here _ _)). congruence.
    + rewrite fmap_Some. split.
      * intros (j & (l1 & x & l2 & -> & <- & Hx & Hl1)%IH & ->).
        exists (a :: l1), x, l2. split_and!; try done.
        intros y [->|Hy]%elem_of_cons; auto.
      * intros (l1 & x & l2 & H & <- & Hx & Hl1).
        destruct l1 as [|b l1]; simplify_eq/=; [congruence|].
        exists (length l1). split; [|done]. apply IH.
        exists l1, x, l2. split_and!; try done.
        intros y Hy. apply Hl1. by right.
Qed.

(** *** Rounding to a double *)

Lemma round_exact (z : Z) : Z.abs z ≤ 2 ^ 53 → round_to_double z = z.
Proof.
  intros H. unfold round_to_double.
  destruct (Z.leb_spec (Z.abs z) (2 ^ 53)); [done|lia].
Qed.

Lemma is_double_exact (z : Z) : Z.abs z ≤ 2 ^ 53 → is_double z = true.
Proof. intros H. unfold is_double. rewrite round_exact by done. apply Z.eqb_refl. Qed.

Lemma plus_exact (x y : Z) : Z.abs (x + y) ≤ 2 ^ 53 → plus x y = x + y.
Proof.
  intros H. unfold plus.
  destruct (is_double x && is_double y); [by apply round_exact|done].
Qed.

(** A double above 2^53 is a multiple of the power of two that leaves it 53
    bits. *)
Lemma double_multiple (x : Z) :
  2 ^ 53 < x → round_to_double x = x →
  ∃ m, x = m * 2 ^ (Z.log2 x - 52).
Proof.
  intros Hx Hd. unfold round_to_double in Hd.
  rewrite Z.abs_eq in Hd by lia.
  destruct (Z.leb_spec x (2 ^ 53)); [lia|].
  rewrite Z.sgn_pos, Z.mul_1_l in Hd by lia. eauto.
Qed.

(** Adding 1 to a double that is not negative never goes below it. *)
Lemma round_succ_ge (x : Z) :
  0 ≤ x → round_to_double x = x → x ≤ round_to_double (x + 1).
Proof.
  intros Hx Hd.
  destruct (Z_le_gt_dec (x + 1) (2 ^ 53)) as [Hs|Hb].
  { rewrite round_exact by lia. lia. }
  destruct (Z.eq_dec x (2 ^ 53)) as [->|Hne]; [by vm_compute|].
  assert (Hbig : 2 ^ 53 < x) by lia.
  destruct (double_multiple x Hbig Hd) as [m Hm].
  assert (Hlog : 53 ≤ Z.log2 x).
  { change 53 with (Z.log2 (2 ^ 53)). apply Z.log2_le_mono. lia. }
  set (k := Z.log2 x - 52) in *.
  assert (Hk : 1 ≤ k) by lia.
  destruct (Z.log2_spec x) as [Hlo Hhi]; [lia|].
  replace (Z.log2 x) with (52 + k) in Hlo by lia.
  replace (Z.succ (Z.log2 x)) with (53 + k) in Hhi by lia.
  rewrite Z.pow_add_r in Hlo, Hhi by lia.
  assert (HP : 2 ≤ 2 ^ k).
  { change 2 with (2 ^ 1) at 1. apply Z.pow_le_mono_r; lia. }
  set (P := 2 ^ k) in *.
  assert (Hm53 : m < 2 ^ 53) by (apply (Z.mul_lt_mono_pos_r P); lia).
  assert (HmP : m * P ≤ (2 ^ 53 - 1) * P)
    by (apply Z.mul_le_mono_nonneg_r; lia).
  assert (Hlog' : Z.log2 (x + 1) = 52 + k).
  { apply Z.log2_unique; [lia|].
    rewrite Z.pow_succ_r, !Z.pow_add_r by lia. fold P. lia. }
  unfold round_to_double. rewrite Z.abs_eq by lia.
  destruct (Z.leb_spec (x + 1) (2 ^ 53)); [lia|].
  rewrite Hlog'. replace (52 + k - 52) with k by lia.
  rewrite Z.sgn_pos, Z.mul_1_l by lia.
  fold P.
  assert (Hq : (x + 1) / P = m).
  { rewrite Hm, Z.div_add_l by lia. rewrite Z.div_small by lia. lia. }
  rewrite Hq.
  destruct (_ || _); lia.
Qed.

Lemma plus_1_ge (x : Z) : 0 ≤ x → x ≤ plus x 1.
Proof.
  intros Hx. unfold plus. destruct (is_double x) eqn:E; simpl; [|lia].
  apply round_succ_ge; [done|]. by apply Z.eqb_eq.
Qed.

Lemma plus_1_positive (x : Z) : 0 ≤ x → 1 ≤ plus x 1.
Proof.
  intros Hx. destruct (Z.eq_dec x 0) as [->|Hne]; [by vm_compute|].
  pose proof (plus_1_ge x Hx). lia.
Qed.

(** *** The allocator's fold *)

Section Allocator.

Local Abbreviation step := (λ (max : Z) (p : product), Z.max max (or_0 (id p))).

Lemma fold_max_ge_seed (l : list product) (seed : Z) :
  seed ≤ fold_left step l seed.
Proof.
  revert seed. induction l as [|p l IH]; intros seed; simpl; [lia|].
  specialize (IH (Z.max seed (or_0 (id p)))). lia.
Qed.

Lemma fold_max_ge_elem (l : list product) (seed : Z) (p : product) :
  p ∈ l → or_0 (id p) ≤ fold_left step l seed.
Proof.
  revert seed. induction l as [|q l IH]; intros seed Hp; [inversion Hp|].
  simpl. apply elem_of_cons in Hp as [->|Hp]; [|by apply IH].
  pose proof (fold_max_ge_seed l (Z.max seed (or_0 (id q)))). lia.
Qed.

Lemma fold_max_attained (l : list product) (seed : Z) :
  fold_left step l seed = seed
  ∨ ∃ p, p ∈ l ∧ fold_left step l seed = or_0 (id p).
Proof.
  revert seed. induction l as [|q l IH]; intros seed; simpl; [by left|].
  destruct (IH (Z.max seed (or_0 (id q)))) as [->|(p & Hp & ->)].
  - destruct (Z.max_spec seed (or_0 (id q))) as [[_ ->]|[_ ->]].
    + right. exists q. split; [left|done].
    + by left.
  - right. exists p. split; [by right|done].
Qed.

Lemma fold_max_seed (l : list product) (a b : Z) :
  fold_left step l (Z.max a b) = Z.max a (fold_left step l b).
Proof.
  revert b. induction l as [|p l IH]; intros b; simpl; [done|].
  by rewrite <- Z.max_assoc, IH.
Qed.

End Allocator.

Lemma generateProductId_maxId (l : list product) :
  generateProductId l = plus (maxId l) 1.
Proof. reflexivity. Qed.

Lemma maxId_nonneg (l : list product) : 0 ≤ maxId l.
Proof. apply fold_max_ge_seed. Qed.

Lemma maxId_ge (l : list product) (p : product) :
  p ∈ l → observed_id p ≤ maxId l.
Proof.
  intros Hp. unfold observed_id. rewrite <- or_0_default.
  by apply fold_max_ge_elem.
Qed.

Lemma maxId_app (l1 l2 : list product) :
  maxId (l1 ++ l2) = Z.max (maxId l1) (maxId l2).
Proof.
  unfold maxId. rewrite fold_left_app.
  pose proof (fold_max_ge_seed l1 0) as Hge.
  rewrite <- (Z.max_l _ 0 Hge) at 1. by rewrite fold_max_seed.
Qed.

Lemma maxId_singleton (p : product) : maxId [p] = Z.max 0 (observed_id p).
Proof. unfold maxId, observed_id. simpl. by rewrite or_0_default. Qed.

Lemma maxId_cons (p : product) (l : list product) :
  maxId (p :: l) = Z.max (Z.max 0 (observed_id p)) (maxId l).
Proof. by rewrite <- maxId_singleton, <- maxId_app. Qed.

(** [maxId] against the specification's maximum. *)
Lemma maxId_max (l : list product) (m : Z) :
  is_maximum m (observed_id <$> l) → maxId l = Z.max 0 m.
Proof.
  intros [(p & -> & Hp)%list_elem_of_fmap Hmax].
  pose proof (maxId_ge l p Hp) as Hp'. pose proof (maxId_nonneg l) as Hpos.
  destruct (fold_max_attained l 0) as [E|(q & Hq & E)];
    fold (maxId l) in E.
  - lia.
  - rewrite or_0_default in E. fold (observed_id q) in E.
    assert (observed_id q ≤ observed_id p)
      by (apply Hmax, list_elem_of_fmap; eauto).
    lia.
Qed.

Lemma generateProductId_exact (l : list product) :
  maxId l < 2 ^ 53 → generateProductId l = maxId l + 1.
Proof.
  intros H. pose proof (maxId_nonneg l).
  rewrite generateProductId_maxId. apply plus_exact. lia.
Qed.

Lemma generateProductId_positive (l : list product) : 1 ≤ generateProductId l.
Proof.
  rewrite generateProductId_maxId. apply plus_1_positive, maxId_nonneg.
Qed.


Lemma generateProductId_above (l : list product) (p : product) :
  maxId l < 2 ^ 53 → p ∈ l → observed_id p < generateProductId l.
Proof.
  intros H Hp. rewrite generateProductId_exact by done.
  pose proof (maxId_ge l p Hp). lia.
Qed.

Lemma generateProductId_fresh (l : list product) :
  maxId l < 2 ^ 53 → Some (generateProductId l) ∉ id <$> l.
Proof.
  intros H (p & Hid & Hp)%list_elem_of_fmap.
  pose proof (generateProductId_above l p H Hp) as Hlt.
  unfold observed_id in Hlt. rewrite <- Hid in Hlt. simpl in Hlt. lia.
Qed.

(** The allocator against the specification's maximum. *)
Lemma generateProductId_max (l : list product) (m : Z) :
  is_maximum m (observed_id <$> l) → m < 2 ^ 53 →
  generateProductId l = Z.max 0 m + 1.
Proof.
  intros Hm Hb. pose proof (maxId_max l m Hm) as E.
  rewrite generateProductId_exact; lia.
Qed.

(** ** Running the handlers *)

(** Unfolds the writes and the monad's plumbing once the load has run. *)
Ltac run_io :=
  unfold saveProducts, saveStats, writeFileSync, JSON_stringify, logged, store,
    res_json, res_status_json, mbind, IO_bind, mret, IO_ret;
  simpl; rewrite <- ?app_assoc; simpl.

Lemma validation_passes (req : request) :
  all_present req →
  negb (truthy (prop (body req) "name"))
  || negb (truthy (prop (body req) "description"))
  || negb (truthy (prop (body req) "image"))
  || negb (truthy (prop (body req) "alt")) = false.
Proof.
  intros H. unfold all_present, required in H.
  rewrite !H; [done|set_solver..].
Qed.

Lemma validation_fails (req : request) :
  some_missing req →
  negb (truthy (prop (body req) "name"))
  || negb (truthy (prop (body req) "description"))
  || negb (truthy (prop (body req) "image"))
  || negb (truthy (prop (body req) "alt")) = true.
Proof.
  intros (k & Hk & Hf). unfold required in Hk.
  repeat (apply elem_of_cons in Hk as [->|Hk]); [..|inversion Hk];
    rewrite Hf; simpl; by rewrite ?orb_true_r.
Qed.

Lemma post_products_invalid (req : request) (w : world) :
  some_missing req →
  post_products req w
  = (Returns (Response 400 (error "Missing required fields")), w).
Proof. intros H. unfold post_products. by rewrite validation_fails. Qed.

Lemma put_product_invalid (req : request) (w : world) :
  some_missing req →
  put_product req w
  = (Returns (Response 400 (error "Missing required fields")), w).
Proof. intros H. unfold put_product. by rewrite validation_fails. Qed.

Lemma post_products_valid (req : request) (w : world) :
  all_present req →
  let created := record_of (Some (generateProductId (stored_products w))) req in
  post_products req w
  = (Returns (Response 201 (product_json created)),
     World (Some (Encodes (stored_products w ++ [created])))
           (stats_json w)
           (log w ++ [Read PRODUCTS_FILE; Write PRODUCTS_FILE])).
Proof.
  intros H created. unfold post_products. rewrite validation_passes by done.
  erewrite bind_run by apply loadProducts_run.
  by run_io.
Qed.

Lemma put_product_not_found (req : request) (w : world) :
  all_present req →
  (∀ p, p ∈ stored_products w → ¬ matches (parseInt (params_id req)) p) →
  put_product req w
  = (Returns (Response 404 (error "Product not found")),
     logged (Read PRODUCTS_FILE) w).
Proof.
  intros H Hno. unfold put_product. rewrite validation_passes by done.
  erewrite bind_run by apply loadProducts_run.
  replace (findIndex _ _) with (@None nat); [done|].
  symmetry. apply findIndex_None. intros p Hp.
  by apply strict_eq_no_match, Hno.
Qed.

Lemma delete_product_not_found (req : request) (w : world) :
  (∀ p, p ∈ stored_products w → ¬ matches (parseInt (params_id req)) p) →
  delete_product req w
  = (Returns (Response 404 (error "Product not found")),
     logged (Read PRODUCTS_FILE) w).
Proof.
  intros Hno. unfold delete_product.
  erewrite bind_run by apply loadProducts_run.
  replace (findIndex _ _) with (@None nat); [done|].
  symmetry. apply findIndex_None. intros p Hp.
  by apply strict_eq_no_match, Hno.
Qed.

(** A path id that names a stored product splits the collection at the
    first record it names. *)
Lemma first_match (n : number) (l : list product) :
  (∃ p, p ∈ l ∧ matches n p) →
  ∃ l1 p l2 z, l = l1 ++ p :: l2 ∧ n = Int z ∧ id p = Some z
               ∧ (∀ q, q ∈ l1 → ¬ matches n q)
               ∧ findIndex (λ p, strict_eq (id p) n) l = Some (length l1).
Proof.
  intros (p & Hp & Hm).
  destruct (findIndex (λ p, strict_eq (id p) n) l) as [i|] eqn:E.
  - pose proof E as (l1 & x & l2 & -> & <- & Hx & Hl1)%findIndex_Some.
    apply strict_eq_matches in Hx as (z & -> & Hz).
    exists l1, x, l2, z. split_and!; try done.
    intros q Hq. by apply strict_eq_no_match, Hl1.
  - exfalso. rewrite findIndex_None in E.
    apply (strict_eq_no_match n p); auto.
Qed.

Lemma put_product_found (req : request) (w : world)
    (l1 l2 : list product) (p : product) (z : Z) :
  all_present req →
  stored_products w = l1 ++ p :: l2 →
  parseInt (params_id req) = Int z →
  findIndex (λ p, strict_eq (id p) (Int z)) (l1 ++ p :: l2) = Some (length l1) →
  put_product req w
  = (Returns (Response 200 (product_json (record_of (Some z) req))),
     World (Some (Encodes (l1 ++ record_of (Some z) req :: l2)))
           (stats_json w)
           (log w ++ [Read PRODUCTS_FILE; Write PRODUCTS_FILE])).
Proof.
  intros H Hl Hz Hi. unfold put_product. rewrite validation_passes by done.
  erewrite bind_run by apply loadProducts_run.
  rewrite Hl, Hz, Hi.
  run_io.
  rewrite list_lookup_total_insert_eq by (rewrite length_app; simpl; lia).
  by rewrite insert_app_r_alt, Nat.sub_diag by lia.
Qed.

Lemma delete_product_found (req : request) (w : world)
    (l1 l2 : list product) (p : product) (z : Z) :
  stored_products w = l1 ++ p :: l2 →
  parseInt (params_id req) = Int z →
  findIndex (λ p, strict_eq (id p) (Int z)) (l1 ++ p :: l2) = Some (length l1) →
  delete_product req w
  = (Returns (Response 200 (message "Product deleted")),
     World (Some (Encodes (l1 ++ l2)))
           (stats_json w)
           (log w ++ [Read PRODUCTS_FILE; Write PRODUCTS_FILE])).
Proof.
  intros Hl Hz Hi. unfold delete_product.
  erewrite bind_run by apply loadProducts_run.
  rewrite Hl, Hz, Hi.
  run_io. by rewrite delete_middle.
Qed.

Lemma post_stats_visit_run (req : request) (w : world) :
  let n := plus (or_0 (visits (stored_stats w))) 1 in
  post_stats_visit req w
  = (Returns (Response 200 (visits_json (Some n))),
     World (products_json w)
           (Some (Encodes (Stats (Some n) (stats_other (stored_stats w)))))
           (log w ++ [Read STATS_FILE; Write STATS_FILE])).
Proof.
  intros n. unfold post_stats_visit.
  erewrite bind_run by apply loadStats_run.
  by run_io.
Qed.

Lemma get_products_run (req : request) (w : world) :
  get_products req w
  = (Returns (Response 200 (products_array (stored_products w))),
     logged (Read PRODUCTS_FILE) w).
Proof.
  unfold get_products. by erewrite bind_run by apply loadProducts_run.
Qed.

Lemma get_stats_run (req : request) (w : world) :
  get_stats req w
  = (Returns (Response 200 (stats_object (stored_stats w))),
     logged (Read STATS_FILE) w).
Proof.
  unfold get_stats. by erewrite bind_run by apply loadStats_run.
Qed.

Lemma serve_cons (r : route) (req : request) (calls : list (route * request))
    (w w1 w2 : world) (res : response) (rest : list response) :
  app r req w = (Returns res, w1) →
  serve calls w1 = (Returns rest, w2) →
  serve ((r, req) :: calls) w = (Returns (res :: rest), w2).
Proof.
  intros H1 H2. simpl. unfold mbind, IO_bind at 1. rewrite H1.
  unfold IO_bind. by rewrite H2.
Qed.

Lemma present_or_missing (req : request) : all_present req ∨ some_missing req.
Proof.
  destruct (truthy (prop (body req) "name")) eqn:E1;
    [|right; exists "name"; split; [set_solver|done]].
  destruct (truthy (prop (body req) "description")) eqn:E2;
    [|right; exists "description"; split; [set_solver|done]].
  destruct (truthy (prop (body req) "image")) eqn:E3;
    [|right; exists "image"; split; [set_solver|done]].
  destruct (truthy (prop (body req) "alt")) eqn:E4;
    [|right; exists "alt"; split; [set_solver|done]].
  left. intros k Hk. unfold required in Hk.
  repeat (apply elem_of_cons in Hk as [->|Hk]); try done. inversion Hk.
Qed.

Lemma speaker_present (i : string) : all_present (Request i speaker_fields).
Proof.
  intros k Hk. unfold required in Hk.
  repeat (apply elem_of_cons in Hk as [->|Hk]); try reflexivity. inversion Hk.
Qed.

Lemma unlabelled_missing (i : string) :
  some_missing (Request i (<["alt" := Str ""]> speaker_fields)).
Proof. exists "alt". split; [set_solver|reflexivity]. Qed.

(** The falsy values are those the validation policy lists, and [false]. *)
Lemma falsy_values (v : value) :
  truthy v = false ↔ v ∈ [Undefined; Null; Bool false; Num 0; Str ""].
Proof.
  split.
  - destruct v as [| |[]|z|s| |]; simpl; try discriminate;
      try (intros _; set_solver).
    + intros ->%negb_false_iff%Z.eqb_eq. set_solver.
    + intros ->%negb_false_iff%String.eqb_eq. set_solver.
  - intros Hv. repeat (apply elem_of_cons in Hv as [->|Hv]); try done.
    inversion Hv.
Qed.

(** A property that is not in the body reads as [undefined]. *)
Lemma absent_is_missing (req : request) (k : string) :
  k ∈ required → body req !! k = None → some_missing req.
Proof. intros Hk Hb. exists k. split; [done|]. unfold prop. by rewrite Hb. Qed.

Lemma is_maximum_singleton (x : Z) : is_maximum x [x].
Proof.
  split; [left|]. intros y Hy. apply list_elem_of_singleton in Hy. lia.
Qed.

(** ** The ID allocator *)

(** C5, as the code has it.  For every product sequence the allocator
    returns the greatest of 0 and the ids observed across the sequence, a
    missing id counting as 0, plus one in double arithmetic.  As long as the
    maximum id is below 2^53 this is exactly one more than the greatest of 0
    and the ids: the maximum id plus one when that maximum is not negative,
    and 1 for the empty sequence. *)
Theorem generateProductId_spec (l : list product) (m : Z) :
  generateProductId [] = 1
  ∧ (is_maximum m (observed_id <$> l) →
     generateProductId l = plus (Z.max 0 m) 1
     ∧ (m < 2 ^ 53 →
        generateProductId l = Z.max 0 m + 1
        ∧ (0 ≤ m → generateProductId l = m + 1))).
Proof.
  split; [reflexivity|]. intros Hm. split.
  - by rewrite generateProductId_maxId, (maxId_max l m Hm).
  - intros Hb. pose proof (generateProductId_max l m Hm Hb). split; [done|lia].
Qed.

Lemma generateProductId_spec_witness :
  is_maximum 4 (observed_id <$> [mixer; amplifier; cable])
  ∧ generateProductId [mixer; amplifier; cable] = 4 + 1.
Proof.
  assert (H : is_maximum 4 (observed_id <$> [mixer; amplifier; cable])).
  { split; [set_solver|]. intros x Hx. cbn in Hx.
    repeat (apply elem_of_cons in Hx as [->|Hx]); [lia..|inversion Hx]. }
  split; [exact H|].
  apply (generateProductId_spec [mixer; amplifier; cable] 4);
    [exact H|reflexivity|lia].
Defined.

(** C5 as first stated, maximum id plus one, fails where every id is
    negative: the fold starts from 0, so [-5] is followed by 1, not -4.  It
    also fails at 2^53, where the sum rounds back to 2^53. *)
Lemma generateProductId_not_max_plus_1 :
  (generateProductId [returned] = 1
   ∧ ¬ (is_maximum (-5) (observed_id <$> [returned]) →
        generateProductId [returned] = -5 + 1))
  ∧ (generateProductId [huge] = 2 ^ 53
     ∧ ¬ (is_maximum (2 ^ 53) (observed_id <$> [huge]) →
          generateProductId [huge] = 2 ^ 53 + 1)).
Proof.
  split; (split; [by vm_compute|]); intros H.
  - specialize (H (is_maximum_singleton (-5))). vm_compute in H. discriminate.
  - specialize (H (is_maximum_singleton (2 ^ 53))). vm_compute in H.
    discriminate.
Qed.

(** ** Create *)

(** C1, as the code has it.  For every request whose four fields are
    truthy, Create loads the current collection, appends the record
    [{id, name, description, image, alt}] whose id is the allocator's result,
    saves, and answers 201 with the created record; Create followed by List
    yields the prior collection plus exactly that record.  When the previous
    maximum id is below 2^53, the new id is one more than the greatest of 0
    and the previous ids: the previous maximum plus one when that is not
    negative, and 1 when the collection was empty. *)
Theorem create_then_list (req req' : request) (w : world) (m : Z) :
  all_present req →
  let prior := stored_products w in
  let created := record_of (Some (generateProductId prior)) req in
  post_products req w
  = (Returns (Response 201 (product_json created)),
     World (Some (Encodes (prior ++ [created]))) (stats_json w)
           (log w ++ [Read PRODUCTS_FILE; Write PRODUCTS_FILE]))
  ∧ fst (serve [(POST_products, req); (GET_products, req')] w)
    = Returns [Response 201 (product_json created);
               Response 200 (products_array (prior ++ [created]))]
  ∧ (prior = [] → id created = Some 1)
  ∧ (is_maximum m (observed_id <$> prior) → m < 2 ^ 53 →
     id created = Some (Z.max 0 m + 1)
     ∧ (0 ≤ m → id created = Some (m + 1))).
Proof.
  intros H prior created. split_and!.
  - by apply post_products_valid.
  - erewrite serve_cons; [done|by apply post_products_valid|].
    erewrite serve_cons; [done|apply get_products_run|done].
  - subst created. simpl. by intros ->.
  - intros Hm Hb. subst created. simpl.
    pose proof (generateProductId_max prior m Hm Hb) as ->.
    split; [done|]. intros. f_equal. lia.
Qed.

Lemma create_then_list_witness :
  all_present speaker
  ∧ is_maximum 4 (observed_id <$> stored_products shop) ∧ 4 < 2 ^ 53
  ∧ fst (serve [(POST_products, speaker); (GET_products, speaker)] shop)
    = Returns [Response 201 (product_json (record_of (Some 5) speaker));
               Response 200 (products_array
                 [mixer; amplifier; cable; record_of (Some 5) speaker])]
  ∧ id (record_of (Some (generateProductId (stored_products shop))) speaker)
    = Some (4 + 1).
Proof.
  assert (Hm : is_maximum 4 (observed_id <$> stored_products shop)).
  { split; [set_solver|]. intros x Hx. cbn in Hx.
    repeat (apply elem_of_cons in Hx as [->|Hx]); [lia..|inversion Hx]. }
  assert (Hb : 4 < 2 ^ 53) by reflexivity.
  split; [exact (speaker_present "2")|]. split; [exact Hm|]. split; [exact Hb|].
  destruct (create_then_list speaker speaker shop 4 (speaker_present "2"))
    as (_ & Hlist & _ & Hid).
  split; [exact Hlist|]. apply (Hid Hm Hb). lia.
Defined.

(** C1 as first stated, an id one greater than the previous maximum id,
    fails on a collection whose only id is -5: the created record gets id 1,
    not -4.  It also fails on a collection whose only id is 2^53: the
    created record gets id 2^53 again. *)
Lemma create_id_not_max_plus_1 :
  (fst (post_products speaker ledger)
   = Returns (Response 201 (product_json (record_of (Some 1) speaker)))
   ∧ ¬ (is_maximum (-5) (observed_id <$> stored_products ledger) →
        fst (post_products speaker ledger)
        = Returns (Response 201
            (product_json (record_of (Some (-5 + 1)) speaker)))))
  ∧ (fst (post_products speaker vault)
     = Returns (Response 201 (product_json (record_of (Some (2 ^ 53)) speaker)))
     ∧ ¬ (is_maximum (2 ^ 53) (observed_id <$> stored_products vault) →
          fst (post_products speaker vault)
          = Returns (Response 201
              (product_json (record_of (Some (2 ^ 53 + 1)) speaker))))).
Proof.
  split; (split; [by vm_compute|]); intros H.
  - specialize (H (is_maximum_singleton (-5))).
    rewrite (post_products_valid speaker ledger (speaker_present "2")) in H.
    simpl in H. injection H as H. vm_compute in H. discriminate.
  - specialize (H (is_maximum_singleton (2 ^ 53))).
    rewrite (post_products_valid speaker vault (speaker_present "2")) in H.
    simpl in H. injection H as H. vm_compute in H. discriminate.
Qed.

(** ** Validation *)

(** C2.  For Create and for Update, when one of name, description, image,
    alt is absent or falsy the answer is 400 with the validation error, and
    the world is the one before the call: nothing is written (nor read). *)
Theorem validation_rejects (req : request) (w : world) :
  some_missing req →
  post_products req w
  = (Returns (Response 400 (error "Missing required fields")), w)
  ∧ put_product req w
    = (Returns (Response 400 (error "Missing required fields")), w).
Proof.
  intros H. split; [by apply post_products_invalid|by apply put_product_invalid].
Qed.

Lemma validation_rejects_witness :
  some_missing unlabelled
  ∧ post_products unlabelled shop
    = (Returns (Response 400 (error "Missing required fields")), shop)
  ∧ put_product unlabelled shop
    = (Returns (Response 400 (error "Missing required fields")), shop).
Proof.
  split; [exact (unlabelled_missing "2")|].
  exact (validation_rejects unlabelled shop (unlabelled_missing "2")).
Defined.

(** ** Not found *)

(** C3.  When no stored product has the id of the path, Update (all fields
    present) and Delete answer 404 with the not-found error; the only
    file-system call is the read of the load, so both files are as before. *)
Theorem not_found_leaves_store (req : request) (w : world) :
  (∀ p, p ∈ stored_products w → ¬ matches (parseInt (params_id req)) p) →
  (all_present req →
   put_product req w
   = (Returns (Response 404 (error "Product not found")),
      World (products_json w) (stats_json w) (log w ++ [Read PRODUCTS_FILE])))
  ∧ delete_product req w
    = (Returns (Response 404 (error "Product not found")),
       World (products_json w) (stats_json w) (log w ++ [Read PRODUCTS_FILE])).
Proof.
  intros Hno. split.
  - intros H. by apply put_product_not_found.
  - by apply delete_product_not_found.
Qed.

Lemma no_product_3 (req : request) :
  params_id req = "3" →
  ∀ p, p ∈ stored_products shop → ¬ matches (parseInt (params_id req)) p.
Proof.
  intros -> p Hp (z & Hz & Hid). injection Hz as <-.
  simpl in Hp. repeat (apply elem_of_cons in Hp as [->|Hp]);
    try discriminate. inversion Hp.
Qed.

Lemma not_found_leaves_store_witness :
  (∀ p, p ∈ stored_products shop →
        ¬ matches (parseInt (params_id speaker_at_3)) p)
  ∧ all_present speaker_at_3
  ∧ put_product speaker_at_3 shop
    = (Returns (Response 404 (error "Product not found")),
       World (products_json shop) (stats_json shop) [Read PRODUCTS_FILE])
  ∧ delete_product speaker_at_3 shop
    = (Returns (Response 404 (error "Product not found")),
       World (products_json shop) (stats_json shop) [Read PRODUCTS_FILE]).
Proof.
  split; [exact (no_product_3 speaker_at_3 eq_refl)|].
  split; [exact (speaker_present "3")|].
  destruct (not_found_leaves_store speaker_at_3 shop
              (no_product_3 speaker_at_3 eq_refl)) as [Hput Hdel].
  split; [exact (Hput (speaker_present "3"))|exact Hdel].
Defined.

(** C10.  Update checks the fields before it looks the product up: a
    request that omits a required field and names an id not in the
    collection is answered 400, not 404, and the world is the one before the
    call, so the store was neither read nor written. *)
Theorem update_validates_first (req : request) (w : world) :
  some_missing req →
  (∀ p, p ∈ stored_products w → ¬ matches (parseInt (params_id req)) p) →
  put_product req w
  = (Returns (Response 400 (error "Missing required fields")), w)
  ∧ put_product req w
    ≠ (Returns (Response 404 (error "Product not found")),
       logged (Read PRODUCTS_FILE) w).
Proof.
  intros H _. rewrite put_product_invalid by done. split; [done|].
  intros [=].
Qed.

Lemma update_validates_first_witness :
  some_missing unlabelled_at_3
  ∧ (∀ p, p ∈ stored_products shop →
          ¬ matches (parseInt (params_id unlabelled_at_3)) p)
  ∧ put_product unlabelled_at_3 shop
    = (Returns (Response 400 (error "Missing required fields")), shop).
Proof.
  split; [exact (unlabelled_missing "3")|].
  split; [exact (no_product_3 unlabelled_at_3 eq_refl)|].
  exact (proj1 (update_validates_first unlabelled_at_3 shop
                  (unlabelled_missing "3")
                  (no_product_3 unlabelled_at_3 eq_refl))).
Defined.

(** ** Update *)

(** C4.  When the path id names a stored product and the four fields are
    truthy, Update answers 200 with [{id, name, description, image, alt}],
    id being the integer parsed from the path, and saves the collection in
    which that record stands where the first product of that id stood;
    the records before and after it are the same, in the same order. *)
Theorem update_replaces_in_place (req : request) (w : world) :
  all_present req →
  (∃ p, p ∈ stored_products w ∧ matches (parseInt (params_id req)) p) →
  ∃ l1 p l2 z,
    stored_products w = l1 ++ p :: l2
    ∧ parseInt (params_id req) = Int z
    ∧ id p = Some z
    ∧ (∀ q, q ∈ l1 → id q ≠ Some z)
    ∧ put_product req w
      = (Returns (Response 200 (product_json (record_of (Some z) req))),
         World (Some (Encodes (l1 ++ record_of (Some z) req :: l2)))
               (stats_json w)
               (log w ++ [Read PRODUCTS_FILE; Write PRODUCTS_FILE])).
Proof.
  intros H Hex.
  destruct (first_match _ _ Hex) as (l1 & p & l2 & z & Hl & Hz & Hid & Hl1 & Hi).
  exists l1, p, l2, z. split_and!; try done.
  - intros q Hq Hqz. apply (Hl1 q Hq). exists z. by rewrite Hz.
  - apply (put_product_found req w l1 l2 p z); try done.
    by rewrite <- Hl, <- Hz.
Qed.

Lemma update_replaces_in_place_witness :
  all_present speaker
  ∧ (∃ p, p ∈ stored_products shop ∧ matches (parseInt (params_id speaker)) p)
  ∧ ∃ l1 p l2 z,
      stored_products shop = l1 ++ p :: l2
      ∧ parseInt (params_id speaker) = Int z
      ∧ id p = Some z
      ∧ (∀ q, q ∈ l1 → id q ≠ Some z)
      ∧ put_product speaker shop
        = (Returns (Response 200 (product_json (record_of (Some z) speaker))),
           World (Some (Encodes (l1 ++ record_of (Some z) speaker :: l2)))
                 (stats_json shop)
                 (log shop ++ [Read PRODUCTS_FILE; Write PRODUCTS_FILE])).
Proof.
  assert (Hex : ∃ p, p ∈ stored_products shop
                     ∧ matches (parseInt (params_id speaker)) p).
  { exists amplifier. split; [right; left|]. exists 2. split; reflexivity. }
  split; [exact (speaker_present "2")|]. split; [exact Hex|].
  exact (update_replaces_in_place speaker shop (speaker_present "2") Hex).
Defined.

(** What the scenario above computes: the amplifier gives way to the
    speaker, which keeps id 2 and none of the amplifier's properties. *)
Example update_amplifier :
  put_product speaker shop
  = (Returns (Response 200 (product_json (record_of (Some 2) speaker))),
     World (Some (Encodes [mixer; record_of (Some 2) speaker; cable]))
           (stats_json shop) [Read PRODUCTS_FILE; Write PRODUCTS_FILE]).
Proof. reflexivity. Qed.

(** ** Case analyses of the mutating handlers *)

Lemma match_or_not (n : number) (l : list product) :
  (∀ p, p ∈ l → ¬ matches n p)
  ∨ ∃ l1 p l2 z, l = l1 ++ p :: l2 ∧ n = Int z ∧ id p = Some z
      ∧ findIndex (λ p, strict_eq (id p) n) l = Some (length l1).
Proof.
  destruct (findIndex (λ p, strict_eq (id p) n) l) as [i|] eqn:E.
  - right. pose proof E as (l1 & x & l2 & -> & <- & Hx & Hl1)%findIndex_Some.
    apply strict_eq_matches in Hx as (z & -> & Hz). by exists l1, x, l2, z.
  - left. intros p Hp. apply strict_eq_no_match. revert p Hp.
    by apply findIndex_None.
Qed.

Lemma post_products_cases (req : request) (w : world) :
  post_products req w
  = (Returns (Response 400 (error "Missing required fields")), w)
  ∨ ∃ created, id created = Some (generateProductId (stored_products w))
      ∧ post_products req w
        = (Returns (Response 201 (product_json created)),
           World (Some (Encodes (stored_products w ++ [created]))) (stats_json w)
                 (log w ++ [Read PRODUCTS_FILE; Write PRODUCTS_FILE])).
Proof.
  destruct (present_or_missing req) as [H|H].
  - right. eexists. split; [|by apply post_products_valid]. done.
  - left. by apply post_products_invalid.
Qed.

Lemma put_product_cases (req : request) (w : world) :
  put_product req w
  = (Returns (Response 400 (error "Missing required fields")), w)
  ∨ put_product req w
    = (Returns (Response 404 (error "Product not found")),
       logged (Read PRODUCTS_FILE) w)
  ∨ ∃ l1 p l2 z, stored_products w = l1 ++ p :: l2 ∧ id p = Some z
      ∧ put_product req w
        = (Returns (Response 200 (product_json (record_of (Some z) req))),
           World (Some (Encodes (l1 ++ record_of (Some z) req :: l2)))
                 (stats_json w)
                 (log w ++ [Read PRODUCTS_FILE; Write PRODUCTS_FILE])).
Proof.
  destruct (present_or_missing req) as [H|H];
    [|left; by apply put_product_invalid].
  right.
  destruct (match_or_not (parseInt (params_id req)) (stored_products w))
    as [Hno|(l1 & p & l2 & z & Hl & Hz & Hid & Hi)].
  - left. by apply put_product_not_found.
  - right. exists l1, p, l2, z. split_and!; try done.
    apply (put_product_found req w l1 l2 p z); try done.
    by rewrite <- Hl, <- Hz.
Qed.

Lemma delete_product_cases (req : request) (w : world) :
  delete_product req w
  = (Returns (Response 404 (error "Product not found")),
     logged (Read PRODUCTS_FILE) w)
  ∨ ∃ l1 p l2, stored_products w = l1 ++ p :: l2
      ∧ delete_product req w
        = (Returns (Response 200 (message "Product deleted")),
           World (Some (Encodes (l1 ++ l2))) (stats_json w)
                 (log w ++ [Read PRODUCTS_FILE; Write PRODUCTS_FILE])).
Proof.
  destruct (match_or_not (parseInt (params_id req)) (stored_products w))
    as [Hno|(l1 & p & l2 & z & Hl & Hz & Hid & Hi)].
  - left. by apply delete_product_not_found.
  - right. exists l1, p, l2. split; [done|].
    apply (delete_product_found req w l1 l2 p z); try done.
    by rewrite <- Hl, <- Hz.
Qed.

(** No handler throws. *)
Lemma app_returns (r : route) (req : request) (w : world) :
  ∃ res w', app r req w = (Returns res, w').
Proof.
  destruct r; simpl.
  - rewrite get_products_run. eauto.
  - destruct (post_products_cases req w) as [->|(c & _ & ->)]; eauto.
  - destruct (put_product_cases req w)
      as [->|[->|(l1 & p & l2 & z & _ & _ & ->)]]; eauto.
  - destruct (delete_product_cases req w) as [->|(l1 & p & l2 & _ & ->)]; eauto.
  - rewrite post_stats_visit_run. eauto.
  - rewrite get_stats_run. eauto.
Qed.

(** Only the visit route touches the stats file. *)
Lemma app_keeps_stats (r : route) (req : request) (w : world) :
  r ≠ POST_stats_visit → stats_json (snd (app r req w)) = stats_json w.
Proof.
  intros Hr. destruct r; simpl; try done.
  - by rewrite get_products_run.
  - by destruct (post_products_cases req w) as [->|(c & _ & ->)].
  - by destruct (put_product_cases req w)
      as [->|[->|(l1 & p & l2 & z & _ & _ & ->)]].
  - by destruct (delete_product_cases req w) as [->|(l1 & p & l2 & _ & ->)].
  - by rewrite get_stats_run.
Qed.

(** ** Uniqueness of ids *)

Lemma put_product_keeps_ids (req : request) (w : world) :
  id <$> stored_products (snd (put_product req w)) = id <$> stored_products w.
Proof.
  destruct (put_product_cases req w)
    as [->|[->|(l1 & p & l2 & z & Hl & Hid & ->)]]; try done.
  unfold stored_products at 1. simpl.
  by rewrite Hl, !fmap_app, !fmap_cons, Hid.
Qed.

Lemma delete_product_removes (req : request) (w : world) :
  stored_products (snd (delete_product req w)) `sublist_of` stored_products w.
Proof.
  destruct (delete_product_cases req w) as [->|(l1 & p & l2 & Hl & ->)];
    [done|].
  unfold stored_products at 1. simpl. rewrite Hl.
  apply sublist_app; [done|]. by apply sublist_cons.
Qed.

Lemma post_products_extends (req : request) (w : world) :
  stored_products (snd (post_products req w)) = stored_products w
  ∨ ∃ created, id created = Some (generateProductId (stored_products w))
      ∧ stored_products (snd (post_products req w))
        = stored_products w ++ [created].
Proof.
  destruct (post_products_cases req w) as [->|(c & Hc & ->)]; [by left|].
  right. by exists c.
Qed.

Lemma app_keeps_unique_ids (r : route) (req : request) (w : world) :
  maxId (stored_products w) < 2 ^ 53 →
  unique_ids (stored_products w) →
  unique_ids (stored_products (snd (app r req w))).
Proof.
  unfold unique_ids. intros Hb Hu. destruct r; simpl.
  - by rewrite get_products_run.
  - destruct (post_products_extends req w) as [->|(c & Hc & ->)]; [done|].
    rewrite fmap_app. apply NoDup_app. split_and!; [done| |apply NoDup_singleton].
    intros x Hx Hx'. apply list_elem_of_singleton in Hx' as ->.
    rewrite Hc in Hx. by apply generateProductId_fresh in Hx.
  - by rewrite put_product_keeps_ids.
  - eapply sublist_NoDup; [exact Hu|].
    apply fmap_sublist, delete_product_removes.
  - by rewrite post_stats_visit_run.
  - by rewrite get_stats_run.
Qed.

(** C6, as the code has it.  A collection with unique ids, all below 2^53,
    still has unique ids after any call, in particular after Create, Update
    and Delete: the id Create assigns is not in the collection, Update
    leaves the sequence of ids as it was, and what Delete leaves is a
    subsequence of the collection.  Update and Delete keep the ids unique
    whatever their size. *)
Theorem unique_ids_preserved (r : route) (req : request) (w : world) :
  unique_ids (stored_products w) →
  (maxId (stored_products w) < 2 ^ 53 →
   unique_ids (stored_products (snd (app r req w)))
   ∧ Some (generateProductId (stored_products w)) ∉ id <$> stored_products w)
  ∧ unique_ids (stored_products (snd (put_product req w)))
  ∧ unique_ids (stored_products (snd (delete_product req w)))
  ∧ (id <$> stored_products (snd (put_product req w)) = id <$> stored_products w)
  ∧ (stored_products (snd (delete_product req w)) `sublist_of` stored_products w).
Proof.
  intros Hu. split_and!.
  - intros Hb. split; [by apply app_keeps_unique_ids|].
    by apply generateProductId_fresh.
  - unfold unique_ids in *. by rewrite put_product_keeps_ids.
  - unfold unique_ids in *. eapply sublist_NoDup; [exact Hu|].
    apply fmap_sublist, delete_product_removes.
  - apply put_product_keeps_ids.
  - apply delete_product_removes.
Qed.

Lemma shop_unique_ids : unique_ids (stored_products shop).
Proof.
  unfold unique_ids. simpl.
  repeat (apply NoDup_cons; split;
          [intros Hin; repeat (apply elem_of_cons in Hin as [Hin|Hin]);
           try discriminate; inversion Hin|]).
  apply NoDup_nil_2.
Qed.

Lemma unique_ids_preserved_witness :
  unique_ids (stored_products shop)
  ∧ maxId (stored_products shop) < 2 ^ 53
  ∧ unique_ids (stored_products (snd (app POST_products speaker shop)))
  ∧ unique_ids (stored_products (snd (put_product speaker shop)))
  ∧ unique_ids (stored_products (snd (delete_product speaker shop))).
Proof.
  assert (Hb : maxId (stored_products shop) < 2 ^ 53) by reflexivity.
  split; [exact shop_unique_ids|]. split; [exact Hb|].
  destruct (unique_ids_preserved POST_products speaker shop shop_unique_ids)
    as (Hpost & Hput & Hdel & _).
  split; [exact (proj1 (Hpost Hb))|]. split; [exact Hput|exact Hdel].
Defined.

(** C6 as first stated fails at 2^53: from the collection whose one record
    has id 2^53, unique as it is, Create stores a second record with id
    2^53. *)
Lemma create_duplicates_id :
  unique_ids (stored_products vault)
  ∧ stored_products (snd (post_products speaker vault))
    = [huge; record_of (Some (2 ^ 53)) speaker]
  ∧ ¬ unique_ids (stored_products (snd (app POST_products speaker vault))).
Proof.
  split_and!.
  - unfold unique_ids. simpl. apply NoDup_singleton.
  - by vm_compute.
  - unfold unique_ids.
    replace (stored_products (snd (app POST_products speaker vault)))
      with [huge; record_of (Some (2 ^ 53)) speaker] by by vm_compute.
    intros [Hin _]%NoDup_cons. apply Hin. left.
Qed.

(** ** Loading *)

(** C7.  When the backing file is absent or does not parse, the load
    returns the default of its dataset, [[]] for products and [{visits: 0}]
    for stats, so List answers the empty array and GetStats [{visits: 0}];
    and whatever the files hold, neither load throws. *)
Theorem load_defaults (req : request) (w : world) :
  (unreadable (products_json w) →
   loadProducts w
   = (Returns [],
      World (products_json w) (stats_json w) (log w ++ [Read PRODUCTS_FILE]))
   ∧ fst (get_products req w) = Returns (Response 200 (products_array [])))
  ∧ (unreadable (stats_json w) →
     loadStats w
     = (Returns (Stats (Some 0) ∅),
        World (products_json w) (stats_json w) (log w ++ [Read STATS_FILE]))
     ∧ fst (get_stats req w)
       = Returns (Response 200 (stats_object (Stats (Some 0) ∅))))
  ∧ (∃ l w', loadProducts w = (Returns l, w'))
  ∧ (∃ s w', loadStats w = (Returns s, w')).
Proof.
  split_and!.
  - intros Hp. rewrite get_products_run, loadProducts_run.
    unfold stored_products, logged. by destruct Hp as [->| ->].
  - intros Hs. rewrite get_stats_run, loadStats_run.
    unfold stored_stats, logged. by destruct Hs as [->| ->].
  - rewrite loadProducts_run. eauto.
  - rewrite loadStats_run. eauto.
Qed.

Lemma load_defaults_witness :
  unreadable (products_json fresh)
  ∧ unreadable (stats_json fresh)
  ∧ fst (get_products speaker fresh) = Returns (Response 200 (products_array []))
  ∧ fst (get_stats speaker fresh)
    = Returns (Response 200 (stats_object (Stats (Some 0) ∅))).
Proof.
  split; [left; reflexivity|]. split; [left; reflexivity|].
  destruct (load_defaults speaker fresh) as (Hp & Hs & _).
  split; [exact (proj2 (Hp (or_introl eq_refl)))
         |exact (proj2 (Hs (or_introl eq_refl)))].
Defined.

(** The same with both files present and garbled. *)
Example load_damaged :
  fst (loadProducts damaged) = Returns []
  ∧ fst (loadStats damaged) = Returns (Stats (Some 0) ∅).
Proof. split; reflexivity. Qed.

(** ** Visitor statistics *)

Lemma or_0_Some (z : Z) : or_0 (Some z) = z.
Proof. rewrite or_0_default. reflexivity. Qed.

Lemma post_stats_visit_exact (req : request) (w : world) :
  let v0 := or_0 (visits (stored_stats w)) in
  - 2 ^ 53 ≤ v0 → v0 < 2 ^ 53 →
  post_stats_visit req w
  = (Returns (Response 200 (visits_json (Some (v0 + 1)))),
     World (products_json w)
           (Some (Encodes (Stats (Some (v0 + 1)) (stats_other (stored_stats w)))))
           (log w ++ [Read STATS_FILE; Write STATS_FILE])).
Proof.
  intros v0 Hlo Hhi. rewrite post_stats_visit_run. cbv zeta. fold v0.
  by rewrite (plus_exact v0 1) by lia.
Qed.





(** Three visits on a fresh environment. *)
Example three_visits :
  fst (serve (replicate 3 (POST_stats_visit, speaker)) fresh)
  = Returns [Response 200 (visits_json (Some 1));
             Response 200 (visits_json (Some 2));
             Response 200 (visits_json (Some 3))].
Proof. reflexivity. Qed.

(** C9.  GetStats reads only: in any sequence of calls with no RecordVisit
    among them, the stats file ends as it began and every GetStats of the
    sequence answers 200 with the same value, the stats stored at the
    start. *)
Theorem get_stats_idempotent (calls : list (route * request)) (w : world) :
  (∀ c, c ∈ calls → c.1 ≠ POST_stats_visit) →
  ∃ rs w',
    serve calls w = (Returns rs, w')
    ∧ stats_json w' = stats_json w
    ∧ ∀ i req, calls !! i = Some (GET_stats, req) →
               rs !! i = Some (Response 200 (stats_object (stored_stats w))).
Proof.
  revert w. induction calls as [|[r req] calls IH]; intros w Hc.
  - exists [], w. split_and!; try done.
  - assert (Hr : r ≠ POST_stats_visit) by (apply (Hc (r, req)); left).
    destruct (app_returns r req w) as (res & w1 & Happ).
    pose proof (app_keeps_stats r req w Hr) as Hs. rewrite Happ in Hs.
    simpl in Hs.
    destruct (IH w1) as (rs & w' & Hserve & Hs' & Hget).
    { intros c Hin. apply Hc. by right. }
    exists (res :: rs), w'. split_and!.
    + by apply (serve_cons r req calls w w1 w').
    + by rewrite Hs'.
    + intros [|i] req' Hi; simpl in *.
      * injection Hi as -> ->. simpl in Happ. rewrite get_stats_run in Happ.
        by injection Happ as <- _.
      * rewrite (Hget i req' Hi). unfold stored_stats. by rewrite Hs.
Qed.

Lemma get_stats_idempotent_witness :
  (∀ c, c ∈ [(GET_stats, speaker); (POST_products, speaker); (GET_stats, speaker)]
        → c.1 ≠ POST_stats_visit)
  ∧ ∃ rs w',
      serve [(GET_stats, speaker); (POST_products, speaker); (GET_stats, speaker)]
            shop = (Returns rs, w')
      ∧ stats_json w' = stats_json shop
      ∧ ∀ i req,
          [(GET_stats, speaker); (POST_products, speaker); (GET_stats, speaker)]
            !! i = Some (GET_stats, req) →
          rs !! i = Some (Response 200 (stats_object (stored_stats shop))).
Proof.
  assert (H : ∀ c, c ∈ [(GET_stats, speaker); (POST_products, speaker);
                        (GET_stats, speaker)] → c.1 ≠ POST_stats_visit).
  { intros c Hc. repeat (apply elem_of_cons in Hc as [->|Hc]);
      try discriminate. inversion Hc. }
  split; [exact H|]. exact (get_stats_idempotent _ shop H).
Defined.

(** ** The scenario of the specification

    No files at the start; two products are posted, the first is deleted,
    and the list holds the second alone. *)
Example scenario :
  fst (serve [(POST_products, speaker); (POST_products, speaker);
              (DELETE_product, Request "1" ∅); (GET_products, Request "" ∅)]
             fresh)
  = Returns [Response 201 (product_json (record_of (Some 1) speaker));
             Response 201 (product_json (record_of (Some 2) speaker));
             Response 200 (message "Product deleted");
             Response 200 (products_array [record_of (Some 2) speaker])].
Proof. reflexivity. Qed.

(** * Further properties of the handlers *)

(** ** Delete *)

(** X1.  When the path id names a stored product, Delete answers 200 with
    the deletion message, whatever the body holds, and saves the collection
    without the first record of that id; the records before and after it
    stay, in their order. *)
Theorem delete_removes_first (req : request) (w : world) :
  (∃ p, p ∈ stored_products w ∧ matches (parseInt (params_id req)) p) →
  ∃ l1 p l2 z,
    stored_products w = l1 ++ p :: l2
    ∧ parseInt (params_id req) = Int z
    ∧ id p = Some z
    ∧ (∀ q, q ∈ l1 → id q ≠ Some z)
    ∧ delete_product req w
      = (Returns (Response 200 (message "Product deleted")),
         World (Some (Encodes (l1 ++ l2))) (stats_json w)
               (log w ++ [Read PRODUCTS_FILE; Write PRODUCTS_FILE])).
Proof.
  intros Hex.
  destruct (first_match _ _ Hex) as (l1 & p & l2 & z & Hl & Hz & Hid & Hl1 & Hi).
  exists l1, p, l2, z. split_and!; try done.
  - intros q Hq Hqz. apply (Hl1 q Hq). exists z. by rewrite Hz.
  - apply (delete_product_found req w l1 l2 p z); try done.
    by rewrite <- Hl, <- Hz.
Qed.

Lemma amplifier_named (req : request) :
  params_id req = "2" →
  ∃ p, p ∈ stored_products shop ∧ matches (parseInt (params_id req)) p.
Proof.
  intros ->. exists amplifier. split; [right; left|].
  exists 2. split; reflexivity.
Qed.

Lemma delete_removes_first_witness :
  (∃ p, p ∈ stored_products shop ∧ matches (parseInt (params_id unlabelled)) p)
  ∧ ∃ l1 p l2 z,
      stored_products shop = l1 ++ p :: l2
      ∧ parseInt (params_id unlabelled) = Int z
      ∧ id p = Some z
      ∧ (∀ q, q ∈ l1 → id q ≠ Some z)
      ∧ delete_product unlabelled shop
        = (Returns (Response 200 (message "Product deleted")),
           World (Some (Encodes (l1 ++ l2))) (stats_json shop)
                 (log shop ++ [Read PRODUCTS_FILE; Write PRODUCTS_FILE])).
Proof.
  split; [exact (amplifier_named unlabelled eq_refl)|].
  exact (delete_removes_first unlabelled shop (amplifier_named unlabelled eq_refl)).
Defined.

(** Deleting product 2 of the sample catalog, with a body Update would
    reject. *)
Example delete_amplifier :
  delete_product unlabelled shop
  = (Returns (Response 200 (message "Product deleted")),
     World (Some (Encodes [mixer; cable])) (stats_json shop)
           [Read PRODUCTS_FILE; Write PRODUCTS_FILE]).
Proof. reflexivity. Qed.

Lemma unique_id_elsewhere (l1 l2 : list product) (p : product) (z : Z) :
  unique_ids (l1 ++ p :: l2) → id p = Some z →
  ∀ q, q ∈ l1 ++ l2 → id q ≠ Some z.
Proof.
  unfold unique_ids. rewrite fmap_app, fmap_cons.
  intros (_ & Hl1 & [Hp _]%NoDup_cons)%NoDup_app Hid q Hq Hqz.
  rewrite Hid in Hl1, Hp. apply elem_of_app in Hq as [Hq|Hq].
  - apply (Hl1 (Some z)); [|left]. rewrite <- Hqz. by apply list_elem_of_fmap_2.
  - apply Hp. rewrite <- Hqz. by apply list_elem_of_fmap_2.
Qed.

Lemma no_match_by_id (n : number) (l : list product) (z : Z) :
  n = Int z → (∀ q, q ∈ l → id q ≠ Some z) → ∀ q, q ∈ l → ¬ matches n q.
Proof.
  intros -> Hl q Hq (z' & [= <-] & Hid). by apply (Hl q Hq).
Qed.

(** X2.  In a collection with unique ids a deleted product is gone: after
    a Delete that answered 200, the same Delete answers 404 and List shows
    one record less, none of them with that id. *)
Theorem delete_then_not_found (req req' : request) (w : world) :
  unique_ids (stored_products w) →
  (∃ p, p ∈ stored_products w ∧ matches (parseInt (params_id req)) p) →
  ∃ l',
    fst (serve [(DELETE_product, req); (DELETE_product, req);
                (GET_products, req')] w)
    = Returns [Response 200 (message "Product deleted");
               Response 404 (error "Product not found");
               Response 200 (products_array l')]
    ∧ (∀ q, q ∈ l' → ¬ matches (parseInt (params_id req)) q)
    ∧ length (stored_products w) = S (length l').
Proof.
  intros Hu Hex.
  destruct (first_match _ _ Hex) as (l1 & p & l2 & z & Hl & Hz & Hid & Hl1 & Hi).
  assert (Hgone : ∀ q, q ∈ l1 ++ l2 → ¬ matches (parseInt (params_id req)) q).
  { apply (no_match_by_id _ _ z Hz).
    apply (unique_id_elsewhere l1 l2 p z); [by rewrite <- Hl|done]. }
  exists (l1 ++ l2). split_and!; [|done|].
  - erewrite serve_cons; [done| |].
    { apply (delete_product_found req w l1 l2 p z); try done.
      by rewrite <- Hl, <- Hz. }
    erewrite serve_cons; [done| |].
    { simpl. apply delete_product_not_found. exact Hgone. }
    erewrite serve_cons; [done|apply get_products_run|done].
  - rewrite Hl, !length_app. simpl. lia.
Qed.

Lemma delete_then_not_found_witness :
  unique_ids (stored_products shop)
  ∧ (∃ p, p ∈ stored_products shop ∧ matches (parseInt (params_id speaker)) p)
  ∧ ∃ l',
      fst (serve [(DELETE_product, speaker); (DELETE_product, speaker);
                  (GET_products, speaker)] shop)
      = Returns [Response 200 (message "Product deleted");
                 Response 404 (error "Product not found");
                 Response 200 (products_array l')]
      ∧ (∀ q, q ∈ l' → ¬ matches (parseInt (params_id speaker)) q)
      ∧ length (stored_products shop) = S (length l').
Proof.
  split; [exact shop_unique_ids|].
  split; [exact (amplifier_named speaker eq_refl)|].
  exact (delete_then_not_found speaker speaker shop shop_unique_ids
           (amplifier_named speaker eq_refl)).
Defined.

(** Without unique ids the second Delete finds the next record of that
    id. *)
Example delete_twice_doubled :
  fst (serve [(DELETE_product, speaker); (DELETE_product, speaker);
              (GET_products, speaker)] doubled)
  = Returns [Response 200 (message "Product deleted");
             Response 200 (message "Product deleted");
             Response 200 (products_array [mixer; cable])].
Proof. reflexivity. Qed.

(** ** Update *)

Lemma findIndex_replace {A} (f : A → bool) (l1 l2 : list A) (p q : A) :
  findIndex f (l1 ++ p :: l2) = Some (length l1) → f q = true →
  findIndex f (l1 ++ q :: l2) = Some (length l1).
Proof.
  intros (k1 & x & k2 & Heq & Hlen & _ & Hk1)%findIndex_Some Hq.
  apply app_inj_1 in Heq as [-> _]; [|done].
  apply findIndex_Some. by exists k1, q, l2.
Qed.

(** X3.  Update is idempotent: sent twice, a request gets the same answer
    both times, and the second call leaves both files as the first left
    them. *)
Theorem put_product_idempotent (req : request) (w : world) :
  ∃ res w1 w2,
    put_product req w = (Returns res, w1)
    ∧ put_product req w1 = (Returns res, w2)
    ∧ products_json w2 = products_json w1
    ∧ stats_json w2 = stats_json w1.
Proof.
  destruct (present_or_missing req) as [H|H].
  - destruct (match_or_not (parseInt (params_id req)) (stored_products w))
      as [Hno|(l1 & p & l2 & z & Hl & Hz & Hid & Hi)].
    + do 3 eexists. split; [by apply put_product_not_found|].
      split; [by apply put_product_not_found|done].
    + pose proof (put_product_found req w l1 l2 p z H Hl Hz) as Hrun.
      rewrite <- Hl, <- Hz in Hrun. specialize (Hrun Hi).
      set (l' := l1 ++ record_of (Some z) req :: l2) in *.
      set (w1 := World (Some (Encodes l')) (stats_json w)
                       (log w ++ [Read PRODUCTS_FILE; Write PRODUCTS_FILE])) in *.
      exists (Response 200 (product_json (record_of (Some z) req))), w1,
        (World (Some (Encodes l')) (stats_json w1)
               (log w1 ++ [Read PRODUCTS_FILE; Write PRODUCTS_FILE])).
      split; [exact Hrun|]. split; [|split; reflexivity].
      apply (put_product_found req w1 l1 l2 (record_of (Some z) req) z);
        try done.
      apply (findIndex_replace _ l1 l2 p); [by rewrite <- Hl, <- Hz|].
      simpl. apply Z.eqb_refl.
  - do 3 eexists. split; [by apply put_product_invalid|].
    split; [by apply put_product_invalid|done].
Qed.

(** X4.  With unique ids, Update followed by List shows the new fields
    under that id and nothing of the record they replace: the list is as
    long as before, holds the record Update returned, and holds no other
    record of that id. *)
Theorem update_then_list (req req' : request) (w : world) :
  all_present req →
  unique_ids (stored_products w) →
  (∃ p, p ∈ stored_products w ∧ matches (parseInt (params_id req)) p) →
  ∃ z l',
    parseInt (params_id req) = Int z
    ∧ fst (serve [(PUT_product, req); (GET_products, req')] w)
      = Returns [Response 200 (product_json (record_of (Some z) req));
                 Response 200 (products_array l')]
    ∧ record_of (Some z) req ∈ l'
    ∧ (∀ q, q ∈ l' → id q = Some z → q = record_of (Some z) req)
    ∧ length l' = length (stored_products w).
Proof.
  intros H Hu Hex.
  destruct (first_match _ _ Hex) as (l1 & p & l2 & z & Hl & Hz & Hid & Hl1 & Hi).
  exists z, (l1 ++ record_of (Some z) req :: l2). split_and!; [done| | | |].
  - erewrite serve_cons; [done| |].
    { apply (put_product_found req w l1 l2 p z); try done.
      by rewrite <- Hl, <- Hz. }
    erewrite serve_cons; [done|apply get_products_run|done].
  - apply elem_of_app. right. left.
  - intros q Hq Hqz.
    apply elem_of_app in Hq as [Hq|[->|Hq]%elem_of_cons]; [|done|];
      exfalso; (eapply (unique_id_elsewhere l1 l2 p z);
                [by rewrite <- Hl|done| |exact Hqz]);
      apply elem_of_app; auto.
  - rewrite Hl, !length_app. reflexivity.
Qed.

Lemma update_then_list_witness :
  all_present speaker
  ∧ unique_ids (stored_products shop)
  ∧ (∃ p, p ∈ stored_products shop ∧ matches (parseInt (params_id speaker)) p)
  ∧ ∃ z l',
      parseInt (params_id speaker) = Int z
      ∧ fst (serve [(PUT_product, speaker); (GET_products, speaker)] shop)
        = Returns [Response 200 (product_json (record_of (Some z) speaker));
                   Response 200 (products_array l')]
      ∧ record_of (Some z) speaker ∈ l'
      ∧ (∀ q, q ∈ l' → id q = Some z → q = record_of (Some z) speaker)
      ∧ length l' = length (stored_products shop).
Proof.
  split; [exact (speaker_present "2")|].
  split; [exact shop_unique_ids|].
  split; [exact (amplifier_named speaker eq_refl)|].
  exact (update_then_list speaker speaker shop (speaker_present "2")
           shop_unique_ids (amplifier_named speaker eq_refl)).
Defined.

(** Without unique ids the later record of that id keeps its old
    fields. *)
Example update_doubled :
  fst (serve [(PUT_product, speaker); (GET_products, speaker)] doubled)
  = Returns [Response 200 (product_json (record_of (Some 2) speaker));
             Response 200 (products_array
               [mixer; record_of (Some 2) speaker; cable; amplifier])].
Proof. reflexivity. Qed.

(** ** Create and the ids it assigns *)

Lemma maxId_snoc (l : list product) (c : product) (g : Z) :
  id c = Some g → maxId l < g → maxId (l ++ [c]) = g.
Proof.
  intros Hc Hg. pose proof (maxId_nonneg l).
  rewrite maxId_app, maxId_singleton. unfold observed_id. rewrite Hc. simpl.
  lia.
Qed.

Lemma fresh_id_not_found (l : list product) (q : product) :
  maxId l < 2 ^ 53 →
  q ∈ l → strict_eq (id q) (Int (generateProductId l)) = false.
Proof.
  intros Hb Hq. apply strict_eq_no_match. intros (z & [= <-] & Hid).
  apply (generateProductId_fresh l Hb). rewrite <- Hid.
  by apply list_elem_of_fmap_2.
Qed.

Lemma creates_from (reqs : list request) (w : world) :
  Forall all_present reqs →
  maxId (stored_products w) + Z.of_nat (length reqs) ≤ 2 ^ 53 →
  let g := maxId (stored_products w) + 1 in
  let made := imap (λ k req, record_of (Some (g + Z.of_nat k)) req) reqs in
  ∃ w',
    serve ((λ req, (POST_products, req)) <$> reqs) w
    = (Returns ((λ p, Response 201 (product_json p)) <$> made), w')
    ∧ stored_products w' = stored_products w ++ made.
Proof.
  revert w. induction reqs as [|req reqs IH]; intros w Hall Hb; cbv zeta.
  - exists w. split; [done|]. by rewrite app_nil_r.
  - apply Forall_cons in Hall as [Hreq Hall]. simpl length in Hb.
    pose proof (maxId_nonneg (stored_products w)) as Hpos.
    pose proof (post_products_valid req w Hreq) as Hrun. cbv zeta in Hrun.
    rewrite generateProductId_exact in Hrun by lia.
    set (g := maxId (stored_products w) + 1) in *.
    match type of Hrun with _ = (_, ?w1) => set (w1' := w1) in * end.
    assert (Hg : maxId (stored_products w1') = g)
      by (apply maxId_snoc; [done|lia]).
    destruct (IH w1' Hall) as (w' & Hserve & Hstored); [rewrite Hg; lia|].
    rewrite Hg in Hserve, Hstored.
    assert (Hmade :
      imap (λ k r, record_of (Some (g + Z.of_nat k)) r) (req :: reqs)
      = record_of (Some g) req
        :: imap (λ k r, record_of (Some (g + 1 + Z.of_nat k)) r) reqs).
    { rewrite imap_cons. f_equal; [by rewrite Z.add_0_r|].
      apply imap_ext. intros k r _. simpl. do 2 f_equal. lia. }
    exists w'. rewrite Hmade. split.
    + rewrite !fmap_cons. by apply (serve_cons _ _ _ w w1' w').
    + rewrite Hstored. unfold stored_products at 1. simpl.
      by rewrite <- app_assoc.
Qed.

(** X5.  Creates in a row number their records consecutively as long as
    the ids stay within 2^53: when the greatest stored id plus the number of
    requests does not exceed 2^53, valid Create requests served one after
    the other are each answered 201, the k-th (from 0) with the id the
    allocator gave the first plus k, and the collection ends as the prior
    one followed by these records in order. *)
Theorem creates_count_up (reqs : list request) (w : world) :
  Forall all_present reqs →
  maxId (stored_products w) + Z.of_nat (length reqs) ≤ 2 ^ 53 →
  let g := generateProductId (stored_products w) in
  let made := imap (λ k req, record_of (Some (g + Z.of_nat k)) req) reqs in
  ∃ w',
    serve ((λ req, (POST_products, req)) <$> reqs) w
    = (Returns ((λ p, Response 201 (product_json p)) <$> made), w')
    ∧ stored_products w' = stored_products w ++ made.
Proof.
  intros Hall Hb. destruct reqs as [|req reqs].
  - exists w. split; [done|]. by rewrite app_nil_r.
  - cbv zeta. simpl length in Hb. rewrite generateProductId_exact by lia.
    apply (creates_from (req :: reqs) w Hall Hb).
Qed.

Lemma creates_count_up_witness :
  Forall all_present [speaker; speaker_at_3]
  ∧ maxId (stored_products shop) + Z.of_nat (length [speaker; speaker_at_3])
    ≤ 2 ^ 53
  ∧ ∃ w',
      serve [(POST_products, speaker); (POST_products, speaker_at_3)] shop
      = (Returns [Response 201 (product_json (record_of (Some 5) speaker));
                  Response 201 (product_json (record_of (Some 6) speaker_at_3))],
         w')
      ∧ stored_products w'
        = [mixer; amplifier; cable;
           record_of (Some 5) speaker; record_of (Some 6) speaker_at_3].
Proof.
  assert (H : Forall all_present [speaker; speaker_at_3]).
  { repeat constructor; [exact (speaker_present "2")|exact (speaker_present "3")]. }
  assert (Hb : maxId (stored_products shop)
               + Z.of_nat (length [speaker; speaker_at_3]) ≤ 2 ^ 53)
    by (intros E; discriminate E).
  split; [exact H|]. split; [exact Hb|].
  exact (creates_count_up [speaker; speaker_at_3] shop H Hb).
Defined.

(** Past 2^53 the numbering stops: two Creates on the collection whose one
    id is 2^53 both get the id 2^53. *)
Example creates_stuck :
  fst (serve [(POST_products, speaker); (POST_products, speaker)] vault)
  = Returns [Response 201 (product_json (record_of (Some (2 ^ 53)) speaker));
             Response 201 (product_json (record_of (Some (2 ^ 53)) speaker))].
Proof. by vm_compute. Qed.

(** X6.  The id of the newest product is given out again once that product
    is deleted: when the stored ids are below 2^53, Create, Delete of the id
    just created, Create again are answered 201, 200, 201 and both created
    records carry the same id. *)
Theorem id_reused_after_delete (req del req' : request) (w : world) :
  all_present req → all_present req' →
  maxId (stored_products w) < 2 ^ 53 →
  parseInt (params_id del) = Int (generateProductId (stored_products w)) →
  let g := generateProductId (stored_products w) in
  ∃ w',
    serve [(POST_products, req); (DELETE_product, del); (POST_products, req')] w
    = (Returns [Response 201 (product_json (record_of (Some g) req));
                Response 200 (message "Product deleted");
                Response 201 (product_json (record_of (Some g) req'))], w')
    ∧ stored_products w' = stored_products w ++ [record_of (Some g) req'].
Proof.
  intros Hreq Hreq' Hb Hdel g.
  pose proof (post_products_valid req w Hreq) as Hrun1. cbv zeta in Hrun1.
  fold g in Hrun1.
  match type of Hrun1 with _ = (_, ?w1) => set (w1' := w1) in * end.
  pose proof (delete_product_found del w1' (stored_products w) []
                (record_of (Some g) req) g eq_refl Hdel) as Hrun2.
  rewrite app_nil_r in Hrun2.
  match type of Hrun2 with _ → _ = (_, ?w2) => set (w2' := w2) in * end.
  assert (Hrun2' : delete_product del w1'
                   = (Returns (Response 200 (message "Product deleted")), w2')).
  { apply Hrun2, findIndex_Some.
    exists (stored_products w), (record_of (Some g) req), [].
    split_and!; try done; [apply Z.eqb_refl|].
    intros y Hy. by apply fresh_id_not_found. }
  pose proof (post_products_valid req' w2' Hreq') as Hrun3. cbv zeta in Hrun3.
  change (stored_products w2') with (stored_products w) in Hrun3. fold g in Hrun3.
  eexists. split.
  - apply (serve_cons _ _ _ w w1'); [exact Hrun1|].
    apply (serve_cons _ _ _ w1' w2'); [exact Hrun2'|].
    eapply serve_cons; [exact Hrun3|done].
  - reflexivity.
Qed.

Lemma id_reused_after_delete_witness :
  all_present speaker ∧ all_present speaker_at_3
  ∧ maxId (stored_products shop) < 2 ^ 53
  ∧ parseInt (params_id at_5) = Int (generateProductId (stored_products shop))
  ∧ ∃ w',
      serve [(POST_products, speaker); (DELETE_product, at_5);
             (POST_products, speaker_at_3)] shop
      = (Returns [Response 201 (product_json (record_of (Some 5) speaker));
                  Response 200 (message "Product deleted");
                  Response 201 (product_json (record_of (Some 5) speaker_at_3))],
         w')
      ∧ stored_products w'
        = [mixer; amplifier; cable; record_of (Some 5) speaker_at_3].
Proof.
  assert (Hb : maxId (stored_products shop) < 2 ^ 53) by reflexivity.
  split; [exact (speaker_present "2")|].
  split; [exact (speaker_present "3")|].
  split; [exact Hb|]. split; [reflexivity|].
  exact (id_reused_after_delete speaker at_5 speaker_at_3 shop
           (speaker_present "2") (speaker_present "3") Hb eq_refl).
Defined.

(** ** The allocator as a function of the collection *)


Lemma maxId_sublist (l1 l2 : list product) :
  l1 `sublist_of` l2 → maxId l1 ≤ maxId l2.
Proof.
  induction 1 as [|x l l' _ IH|x l l' _ IH].
  - done.
  - rewrite (maxId_cons x l), (maxId_cons x l'). lia.
  - rewrite (maxId_cons x l'). lia.
Qed.



(** ** What a call can do *)

Lemma app_table (r : route) (req : request) (w : world) :
  ∃ res w' evs,
    app r req w = (Returns res, w')
    ∧ log w' = log w ++ evs
    ∧ ((status res = 400%nat ∧ evs = []
        ∧ products_json w' = products_json w ∧ stats_json w' = stats_json w)
       ∨ (status res = 404%nat ∧ evs = [Read PRODUCTS_FILE]
          ∧ products_json w' = products_json w ∧ stats_json w' = stats_json w)
       ∨ (status res ∈ [200%nat; 201%nat]
          ∧ evs = [Read PRODUCTS_FILE; Write PRODUCTS_FILE]
          ∧ r ∈ product_writers ∧ stats_json w' = stats_json w)
       ∨ (status res = 200%nat ∧ evs = [Read PRODUCTS_FILE] ∧ r = GET_products
          ∧ products_json w' = products_json w ∧ stats_json w' = stats_json w)
       ∨ (status res = 200%nat ∧ evs = [Read STATS_FILE] ∧ r = GET_stats
          ∧ products_json w' = products_json w ∧ stats_json w' = stats_json w)
       ∨ (status res = 200%nat ∧ evs = [Read STATS_FILE; Write STATS_FILE]
          ∧ r = POST_stats_visit ∧ products_json w' = products_json w)).
Proof.
  destruct r; simpl.
  - do 3 eexists. split; [apply get_products_run|]. split; [done|].
    do 3 right. left. done.
  - destruct (post_products_cases req w) as [->|(c & _ & ->)].
    + exists (Response 400 (error "Missing required fields")), w, [].
      split; [done|]. split; [by rewrite app_nil_r|]. left. done.
    + do 3 eexists. split; [done|]. split; [done|].
      do 2 right. left. split_and!; try done; set_solver.
  - destruct (put_product_cases req w)
      as [->|[->|(l1 & p & l2 & z & _ & _ & ->)]].
    + exists (Response 400 (error "Missing required fields")), w, [].
      split; [done|]. split; [by rewrite app_nil_r|]. left. done.
    + do 3 eexists. split; [done|]. split; [done|]. right. left. done.
    + do 3 eexists. split; [done|]. split; [done|].
      do 2 right. left. split_and!; try done; set_solver.
  - destruct (delete_product_cases req w) as [->|(l1 & p & l2 & _ & ->)].
    + do 3 eexists. split; [done|]. split; [done|]. right. left. done.
    + do 3 eexists. split; [done|]. split; [done|].
      do 2 right. left. split_and!; try done; set_solver.
  - do 3 eexists. split; [apply post_stats_visit_run|]. split; [done|].
    do 5 right. done.
  - do 3 eexists. split; [apply get_stats_run|]. split; [done|].
    do 4 right. left. done.
Qed.

(** X8.  Whenever a call returns a response, its status is 200, 201, 400
    or 404, and its file-system calls follow one pattern.  A 400 touches no
    file; a 404 and the two GET routes only read; a write is always preceded
    by a read of the same file; products.json is written only by Create,
    Update and Delete when they answer 200 or 201, stats.json only by the
    visit route. *)
Theorem app_outcomes (r : route) (req : request) (w w' : world)
    (res : response) :
  app r req w = (Returns res, w') →
  ∃ evs,
    log w' = log w ++ evs
    ∧ ((status res = 400%nat ∧ evs = []
        ∧ products_json w' = products_json w ∧ stats_json w' = stats_json w)
       ∨ (status res = 404%nat ∧ evs = [Read PRODUCTS_FILE]
          ∧ products_json w' = products_json w ∧ stats_json w' = stats_json w)
       ∨ (status res ∈ [200%nat; 201%nat]
          ∧ evs = [Read PRODUCTS_FILE; Write PRODUCTS_FILE]
          ∧ r ∈ product_writers ∧ stats_json w' = stats_json w)
       ∨ (status res = 200%nat ∧ evs = [Read PRODUCTS_FILE] ∧ r = GET_products
          ∧ products_json w' = products_json w ∧ stats_json w' = stats_json w)
       ∨ (status res = 200%nat ∧ evs = [Read STATS_FILE] ∧ r = GET_stats
          ∧ products_json w' = products_json w ∧ stats_json w' = stats_json w)
       ∨ (status res = 200%nat ∧ evs = [Read STATS_FILE; Write STATS_FILE]
          ∧ r = POST_stats_visit ∧ products_json w' = products_json w)).
Proof.
  intros H.
  destruct (app_table r req w) as (res0 & w0 & evs & Happ & Hlog & Hcases).
  rewrite Happ in H. injection H as <- <-. eauto.
Qed.

Lemma app_outcomes_witness :
  app PUT_product speaker_at_3 shop
  = (Returns (Response 404 (error "Product not found")),
     World (products_json shop) (stats_json shop) [Read PRODUCTS_FILE])
  ∧ ∃ evs,
      [Read PRODUCTS_FILE] = log shop ++ evs
      ∧ ((404%nat = 400%nat ∧ evs = []
          ∧ products_json shop = products_json shop
          ∧ stats_json shop = stats_json shop)
         ∨ (404%nat = 404%nat ∧ evs = [Read PRODUCTS_FILE]
            ∧ products_json shop = products_json shop
            ∧ stats_json shop = stats_json shop)
         ∨ (404%nat ∈ [200%nat; 201%nat]
            ∧ evs = [Read PRODUCTS_FILE; Write PRODUCTS_FILE]
            ∧ PUT_product ∈ product_writers
            ∧ stats_json shop = stats_json shop)
         ∨ (404%nat = 200%nat ∧ evs = [Read PRODUCTS_FILE]
            ∧ PUT_product = GET_products
            ∧ products_json shop = products_json shop
            ∧ stats_json shop = stats_json shop)
         ∨ (404%nat = 200%nat ∧ evs = [Read STATS_FILE] ∧ PUT_product = GET_stats
            ∧ products_json shop = products_json shop
            ∧ stats_json shop = stats_json shop)
         ∨ (404%nat = 200%nat ∧ evs = [Read STATS_FILE; Write STATS_FILE]
            ∧ PUT_product = POST_stats_visit
            ∧ products_json shop = products_json shop)).
Proof.
  split; [reflexivity|].
  exact (app_outcomes PUT_product speaker_at_3 shop _ _ eq_refl).
Defined.

(** ** Visitor statistics, continued *)

(** X9.  GetStats after RecordVisit shows the count RecordVisit answered
    with, which is what the code's [(visits || 0) + 1] comes to, and the
    other properties of the stats object as they were. *)
Theorem visit_then_get_stats (req req' : request) (w : world) :
  let n := plus (or_0 (visits (stored_stats w))) 1 in
  fst (serve [(POST_stats_visit, req); (GET_stats, req')] w)
  = Returns [Response 200 (visits_json (Some n));
             Response 200 (stats_object
               (Stats (Some n) (stats_other (stored_stats w))))].
Proof.
  intros n. erewrite serve_cons; [done|apply post_stats_visit_run|].
  erewrite serve_cons; [done|apply get_stats_run|done].
Qed.

Lemma serve_returns (calls : list (route * request)) (w : world) :
  ∃ rs w', serve calls w = (Returns rs, w').
Proof.
  revert w. induction calls as [|[r req] calls IH]; intros w.
  - by exists [], w.
  - destruct (app_returns r req w) as (res & w1 & Happ).
    destruct (IH w1) as (rs & w' & Hserve).
    exists (res :: rs), w'. by apply (serve_cons _ _ _ w w1).
Qed.

Lemma serve_step (r : route) (req : request) (calls : list (route * request))
    (w : world) :
  snd (serve ((r, req) :: calls) w) = snd (serve calls (snd (app r req w))).
Proof.
  destruct (app_returns r req w) as (res & w1 & Happ).
  destruct (serve_returns calls w1) as (rs & w' & Hserve).
  rewrite (serve_cons _ _ _ w w1 w' res rs Happ Hserve), Happ. simpl.
  by rewrite Hserve.
Qed.

(** X10.  Whatever other calls come in between, the counter counts the
    visit calls as long as it stays within 2^53: after any sequence of calls
    from a counter of at least -2^53 that its visit calls do not take beyond
    2^53, [visits] (an absent counter or file counting as 0) is its value
    before plus the number of calls to the visit route in the sequence. *)
Theorem visits_counted (calls : list (route * request)) (w : world) :
  - 2 ^ 53 ≤ or_0 (visits (stored_stats w)) →
  or_0 (visits (stored_stats w)) + Z.of_nat (visit_calls calls) ≤ 2 ^ 53 →
  or_0 (visits (stored_stats (snd (serve calls w))))
  = or_0 (visits (stored_stats w)) + Z.of_nat (visit_calls calls).
Proof.
  revert w. induction calls as [|[r req] calls IH]; intros w Hlo Hhi.
  - unfold visit_calls. simpl. lia.
  - rewrite serve_step. unfold visit_calls in *. simpl List.filter in *.
    assert (r = POST_stats_visit ∨ r ≠ POST_stats_visit) as [->|Hr]
      by (destruct r; auto; right; discriminate).
    + simpl length in *.
      assert (Hv : or_0 (visits (stored_stats
                     (snd (app POST_stats_visit req w))))
                   = or_0 (visits (stored_stats w)) + 1).
      { change (app POST_stats_visit req w) with (post_stats_visit req w).
        rewrite post_stats_visit_exact by lia. unfold stored_stats at 1.
        cbn [snd stats_json visits]. by rewrite or_0_Some. }
      rewrite IH; rewrite Hv; lia.
    + pose proof (app_keeps_stats r req w Hr) as Hs.
      assert (Hv : stored_stats (snd (app r req w)) = stored_stats w)
        by (unfold stored_stats; by rewrite Hs).
      replace (is_visit (r, req)) with false in * by by destruct r.
      rewrite IH; rewrite Hv; lia.
Qed.

Lemma visits_counted_witness :
  - 2 ^ 53 ≤ or_0 (visits (stored_stats shop))
  ∧ or_0 (visits (stored_stats shop))
    + Z.of_nat (visit_calls [(POST_stats_visit, speaker); (POST_products, speaker);
                             (POST_stats_visit, speaker)]) ≤ 2 ^ 53
  ∧ or_0 (visits (stored_stats (snd (serve
      [(POST_stats_visit, speaker); (POST_products, speaker);
       (POST_stats_visit, speaker)] shop))))
    = 1 + 2.
Proof.
  assert (Hlo : - 2 ^ 53 ≤ or_0 (visits (stored_stats shop)))
    by (intros H; discriminate H).
  assert (Hhi : or_0 (visits (stored_stats shop))
    + Z.of_nat (visit_calls [(POST_stats_visit, speaker); (POST_products, speaker);
                             (POST_stats_visit, speaker)]) ≤ 2 ^ 53)
    by (intros H; discriminate H).
  split; [exact Hlo|]. split; [exact Hhi|].
  exact (visits_counted _ shop Hlo Hhi).
Defined.

(** ** Unreadable files *)

Lemma unreadable_products_empty (w : world) :
  unreadable (products_json w) → stored_products w = [].
Proof. unfold stored_products. by intros [->| ->]. Qed.

Lemma unreadable_stats_default (w : world) :
  unreadable (stats_json w) → stored_stats w = Stats (Some 0) ∅.
Proof. unfold stored_stats. by intros [->| ->]. Qed.

(** X11.  A file that is there but does not parse is not kept: the first
    valid Create replaces products.json by the array of its one record, with
    id 1, and the first RecordVisit replaces stats.json by [{visits: 1}],
    exactly as when the file is absent. *)
Theorem unreadable_file_replaced (req : request) (w : world) :
  (unreadable (products_json w) → all_present req →
   post_products req w
   = (Returns (Response 201 (product_json (record_of (Some 1) req))),
      World (Some (Encodes [record_of (Some 1) req])) (stats_json w)
            (log w ++ [Read PRODUCTS_FILE; Write PRODUCTS_FILE])))
  ∧ (unreadable (stats_json w) →
     post_stats_visit req w
     = (Returns (Response 200 (visits_json (Some 1))),
        World (products_json w) (Some (Encodes (Stats (Some 1) ∅)))
              (log w ++ [Read STATS_FILE; Write STATS_FILE]))).
Proof.
  split.
  - intros Hu H. rewrite (post_products_valid req w H).
    by rewrite (unreadable_products_empty w Hu).
  - intros Hu. rewrite post_stats_visit_run.
    by rewrite (unreadable_stats_default w Hu).
Qed.

Lemma unreadable_file_replaced_witness :
  unreadable (products_json damaged) ∧ unreadable (stats_json damaged)
  ∧ all_present speaker
  ∧ post_products speaker damaged
    = (Returns (Response 201 (product_json (record_of (Some 1) speaker))),
       World (Some (Encodes [record_of (Some 1) speaker])) (Some Garbled)
             [Read PRODUCTS_FILE; Write PRODUCTS_FILE])
  ∧ post_stats_visit speaker damaged
    = (Returns (Response 200 (visits_json (Some 1))),
       World (Some Garbled) (Some (Encodes (Stats (Some 1) ∅)))
             [Read STATS_FILE; Write STATS_FILE]).
Proof.
  split; [right; reflexivity|]. split; [right; reflexivity|].
  split; [exact (speaker_present "2")|].
  destruct (unreadable_file_replaced speaker damaged) as [Hp Hs].
  split; [exact (Hp (or_intror eq_refl) (speaker_present "2"))
         |exact (Hs (or_intror eq_refl))].
Defined.

(** ** Collections the service builds *)

Lemma service_record_of (z : Z) (req : request) :
  1 ≤ z → service_record (record_of (Some z) req).
Proof. intros Hz. split; [eauto|done]. Qed.

Lemma well_formed_snoc (l : list product) (req : request) :
  maxId l < 2 ^ 53 → well_formed l →
  well_formed (l ++ [record_of (Some (generateProductId l)) req]).
Proof.
  intros Hb [Hrec Hsort]. split.
  - apply Forall_app. split; [done|]. apply Forall_singleton.
    apply service_record_of, generateProductId_positive.
  - rewrite fmap_app. apply StronglySorted_app_2; [|done|].
    + intros x1 x2 (p & -> & Hp)%list_elem_of_fmap Hx2.
      apply list_elem_of_singleton in Hx2 as ->.
      by apply generateProductId_above.
    + repeat constructor.
Qed.

Lemma well_formed_replace (l1 l2 : list product) (p : product) (z : Z)
    (req : request) :
  id p = Some z → well_formed (l1 ++ p :: l2) →
  well_formed (l1 ++ record_of (Some z) req :: l2).
Proof.
  intros Hid [Hrec Hsort]. split.
  - apply Forall_app in Hrec as [Hl1 [Hp Hl2]%Forall_cons].
    apply Forall_app. split; [done|]. apply Forall_cons. split; [|done].
    destruct Hp as [(z' & Hz' & Hpos) _].
    apply service_record_of. congruence.
  - rewrite fmap_app, fmap_cons in *.
    replace (observed_id (record_of (Some z) req)) with (observed_id p);
      [done|]. unfold observed_id. by rewrite Hid.
Qed.

Lemma well_formed_remove (l1 l2 : list product) (p : product) :
  well_formed (l1 ++ p :: l2) → well_formed (l1 ++ l2).
Proof.
  intros [Hrec Hsort]. split.
  - apply Forall_app in Hrec as [Hl1 [_ Hl2]%Forall_cons].
    by apply Forall_app.
  - rewrite fmap_app, fmap_cons in Hsort. rewrite fmap_app.
    apply StronglySorted_app in Hsort as (Hlt & Hs1 & [_ Hs2]%StronglySorted_cons).
    apply StronglySorted_app_2; [|done..].
    intros x1 x2 Hx1 Hx2. apply Hlt; [done|by right].
Qed.

Lemma maxId_ids (l l' : list product) :
  id <$> l = id <$> l' → maxId l = maxId l'.
Proof.
  revert l'. induction l as [|p l IH]; intros [|p' l'] H; try done.
  simpl in H. injection H as Hp Hl.
  rewrite (maxId_cons p l), (maxId_cons p' l'), (IH l' Hl).
  unfold observed_id. by rewrite Hp.
Qed.

Lemma app_keeps_well_formed (r : route) (req : request) (w : world) :
  well_formed (stored_products w) →
  maxId (stored_products w) < 2 ^ 53 →
  well_formed (stored_products (snd (app r req w)))
  ∧ maxId (stored_products (snd (app r req w))) ≤ maxId (stored_products w) + 1.
Proof.
  intros Hwf Hb. destruct r; simpl.
  - rewrite get_products_run. cbn [snd].
    change (stored_products (logged _ w)) with (stored_products w).
    split; [done|lia].
  - destruct (present_or_missing req) as [H|H].
    + rewrite (post_products_valid req w H). split.
      * by apply well_formed_snoc.
      * unfold stored_products at 1. simpl.
        pose proof (maxId_nonneg (stored_products w)).
        rewrite (maxId_snoc _ _ (generateProductId (stored_products w)));
          [|done|]; rewrite generateProductId_exact by done; lia.
    + rewrite (post_products_invalid req w H). split; [done|cbn [snd]; lia].
  - split.
    + destruct (present_or_missing req) as [H|H];
        [|by rewrite (put_product_invalid req w H)].
      destruct (match_or_not (parseInt (params_id req)) (stored_products w))
        as [Hno|(l1 & p & l2 & z & Hl & Hz & Hid & Hi)].
      * by rewrite (put_product_not_found req w H Hno).
      * rewrite Hl, Hz in Hi.
        rewrite (put_product_found req w l1 l2 p z H Hl Hz Hi).
        apply (well_formed_replace l1 l2 p z req Hid). by rewrite <- Hl.
    + rewrite (maxId_ids _ _ (put_product_keeps_ids req w)). lia.
  - split.
    + destruct (delete_product_cases req w) as [->|(l1 & p & l2 & Hl & ->)];
        [done|].
      apply (well_formed_remove l1 l2 p). by rewrite <- Hl.
    + pose proof (maxId_sublist _ _ (delete_product_removes req w)). lia.
  - rewrite post_stats_visit_run. cbn [snd].
    change (stored_products (World (products_json w) _ _))
      with (stored_products w).
    split; [done|lia].
  - rewrite get_stats_run. cbn [snd].
    change (stored_products (logged _ w)) with (stored_products w).
    split; [done|lia].
Qed.

(** X12.  The service keeps the collection it builds well formed as long
    as the ids stay within 2^53: if every stored record has an integer id of
    at least 1 and no property besides the five, the ids grow strictly along
    the array, and the greatest id plus the number of calls does not exceed
    2^53, then the same holds after the calls, in particular after calls
    served from an absent or unreadable products file. *)
Theorem well_formed_invariant (calls : list (route * request)) (w : world) :
  well_formed (stored_products w) →
  maxId (stored_products w) + Z.of_nat (length calls) ≤ 2 ^ 53 →
  well_formed (stored_products (snd (serve calls w))).
Proof.
  revert w. induction calls as [|[r req] calls IH]; intros w Hwf Hb; [done|].
  simpl length in Hb. rewrite serve_step.
  destruct (app_keeps_well_formed r req w Hwf) as [Hwf' Hb']; [lia|].
  apply IH; [done|lia].
Qed.

Lemma well_formed_invariant_witness :
  well_formed (stored_products fresh)
  ∧ maxId (stored_products fresh) + Z.of_nat (length
      [(POST_products, speaker); (POST_products, speaker_at_3);
       (PUT_product, speaker); (DELETE_product, speaker_at_3)]) ≤ 2 ^ 53
  ∧ well_formed (stored_products (snd (serve
      [(POST_products, speaker); (POST_products, speaker_at_3);
       (PUT_product, speaker); (DELETE_product, speaker_at_3)] fresh))).
Proof.
  assert (H : well_formed (stored_products fresh)) by (split; constructor).
  assert (Hb : maxId (stored_products fresh) + Z.of_nat (length
      [(POST_products, speaker); (POST_products, speaker_at_3);
       (PUT_product, speaker); (DELETE_product, speaker_at_3)]) ≤ 2 ^ 53)
    by (intros E; discriminate E).
  split; [exact H|]. split; [exact Hb|].
  exact (well_formed_invariant _ fresh H Hb).
Defined.

Lemma last_is_maximum (l : list product) (p : product) :
  well_formed l → last l = Some p →
  is_maximum (observed_id p) (observed_id <$> l)
  ∧ maxId l = observed_id p.
Proof.
  intros [Hrec Hsort] Hlast.
  apply last_Some in Hlast as [l' ->].
  apply Forall_app in Hrec as [_ [[(z & Hz & Hpos) _] _]%Forall_cons].
  assert (Hp : observed_id p = z) by (unfold observed_id; by rewrite Hz).
  rewrite fmap_app in Hsort. simpl in Hsort.
  apply StronglySorted_app in Hsort as (Hlt & _ & _).
  assert (Hmax : is_maximum (observed_id p) (observed_id <$> l' ++ [p])).
  { split; [apply list_elem_of_fmap_2, elem_of_app; right; left|].
    intros x Hx. rewrite fmap_app in Hx.
    apply elem_of_app in Hx as [Hx|Hx].
    - apply Z.lt_le_incl, Hlt; [done|left].
    - apply list_elem_of_singleton in Hx as ->. done. }
  split; [done|]. rewrite (maxId_max _ _ Hmax). lia.
Qed.



Lemma well_formed_before (l1 l2 : list product) (p : product) (z : Z) :
  well_formed (l1 ++ p :: l2) → id p = Some z →
  ∀ q, q ∈ l1 → strict_eq (id q) (Int z) = false.
Proof.
  intros [_ Hsort] Hid q Hq. apply strict_eq_no_match.
  intros (z' & [= <-] & Hqz).
  rewrite fmap_app, fmap_cons in Hsort.
  apply StronglySorted_app in Hsort as (Hlt & _ & _).
  specialize (Hlt (observed_id q) (observed_id p)
                  (list_elem_of_fmap_2 _ _ _ Hq) (list_elem_of_here _ _)).
  unfold observed_id in Hlt. rewrite Hid, Hqz in Hlt. simpl in Hlt. lia.
Qed.

Lemma well_formed_after (l1 l2 : list product) (p q : product) :
  well_formed (l1 ++ p :: l2) → q ∈ l2 → observed_id p < observed_id q.
Proof.
  intros [_ Hsort] Hq. rewrite fmap_app, fmap_cons in Hsort.
  apply StronglySorted_app in Hsort as (_ & _ & [Hlt _]%StronglySorted_cons).
  rewrite Forall_forall in Hlt. by apply Hlt, list_elem_of_fmap_2.
Qed.

(** X14.  Only the newest id comes back: in a well-formed collection,
    deleting a product that is not the last record is answered 200 and
    leaves the allocator's next id as it was, so a later Create does not give
    out the deleted id again. *)
Theorem id_not_reused (del : request) (w : world)
    (l1 l2 : list product) (p : product) (z : Z) :
  well_formed (stored_products w) →
  stored_products w = l1 ++ p :: l2 → l2 ≠ [] →
  id p = Some z → parseInt (params_id del) = Int z →
  ∃ w',
    delete_product del w
    = (Returns (Response 200 (message "Product deleted")), w')
    ∧ stored_products w' = l1 ++ l2
    ∧ generateProductId (stored_products w')
      = generateProductId (stored_products w)
    ∧ z < generateProductId (stored_products w').
Proof.
  intros Hwf Hl Hl2 Hid Hz. rewrite Hl in Hwf.
  eexists. split.
  - apply (delete_product_found del w l1 l2 p z Hl Hz).
    apply findIndex_Some. exists l1, p, l2. split_and!; try done.
    + simpl. rewrite Hid. apply Z.eqb_refl.
    + by apply (well_formed_before l1 l2 p z).
  - assert (Hlast : ∃ q, last l2 = Some q).
    { destruct (last l2) as [q|] eqn:E; [eauto|].
      by apply last_None in E. }
    destruct Hlast as [q Hq].
    assert (H1 : last (l1 ++ p :: l2) = Some q).
    { rewrite last_app. rewrite last_cons, Hq. done. }
    assert (H2 : last (l1 ++ l2) = Some q) by (by rewrite last_app, Hq).
    pose proof (last_is_maximum _ q Hwf H1) as [_ E1].
    pose proof (last_is_maximum _ q (well_formed_remove l1 l2 p Hwf) H2)
      as [_ E2].
    split; [reflexivity|].
    change (stored_products (World (Some (Encodes (l1 ++ l2))) _ _))
      with (l1 ++ l2).
    rewrite Hl, !generateProductId_maxId, E1, E2. split; [done|].
    assert (Hlt : observed_id p < observed_id q).
    { apply (well_formed_after l1 l2 p q Hwf).
      apply last_Some in Hq as [l' ->]. apply elem_of_app. right. left. }
    unfold observed_id at 1 in Hlt. rewrite Hid in Hlt. simpl in Hlt.
    pose proof (maxId_nonneg (l1 ++ l2)) as Hpos. rewrite E2 in Hpos.
    pose proof (plus_1_ge (observed_id q) Hpos). lia.
Qed.

Lemma tidy_well_formed : well_formed (stored_products tidy).
Proof.
  split.
  - repeat constructor; eexists; (split; [reflexivity|lia]).
  - repeat constructor; simpl; lia.
Qed.

Lemma id_not_reused_witness :
  well_formed (stored_products tidy)
  ∧ stored_products tidy = [mixer] ++ record_of (Some 2) speaker :: [cable]
  ∧ [cable] ≠ []
  ∧ ∃ w',
      delete_product speaker tidy
      = (Returns (Response 200 (message "Product deleted")), w')
      ∧ stored_products w' = [mixer] ++ [cable]
      ∧ generateProductId (stored_products w')
        = generateProductId (stored_products tidy)
      ∧ 2 < generateProductId (stored_products w').
Proof.
  assert (Hne : [cable] ≠ []) by discriminate.
  split; [exact tidy_well_formed|]. split; [reflexivity|]. split; [exact Hne|].
  exact (id_not_reused speaker tidy [mixer] [cable] (record_of (Some 2) speaker)
           2 tidy_well_formed eq_refl Hne eq_refl eq_refl).
Defined.

(** ** Path ids as [parseInt] reads them *)

(** Digits beyond the precision of a double are rounded, and Unicode white
    space before the digits is skipped (here U+00A0, bytes 194 160). *)
Example parseInt_rounds : parseInt "9007199254740993" = Int (2 ^ 53).
Proof. by vm_compute. Qed.

Example parseInt_no_break_space :
  parseInt (String (ascii_of_nat 194) (String (ascii_of_nat 160) "2")) = Int 2.
Proof. by vm_compute. Qed.

(** So the path 9007199254740993 names the product whose id is 2^53. *)
Example delete_at_rounded_path :
  delete_product (Request "9007199254740993" ∅) vault
  = (Returns (Response 200 (message "Product deleted")),
     World (Some (Encodes [])) None [Read PRODUCTS_FILE; Write PRODUCTS_FILE]).
Proof. by vm_compute. Qed.
